(** * TaskFlow (script.js): a shallow embedding and its properties

    The program is a browser to-do list.  Its state is the global array
    [tasks], mirrored to [localStorage] under the key ['tasks'] and painted
    into the page after every change.  This development embeds

    - JavaScript strings as sequences of UTF-16 code units,
    - the platform functions the script calls ([String.prototype.trim],
      [JSON.parse], [JSON.stringify], [Number::toString]) as far as the
      script uses them,
    - the script's own functions ([escapeHtml], [createTaskElement],
      [renderAllTasks], [persistTasks], [handleAddTask], [handleDeleteTask],
      [handleToggleComplete], [handleExportTasks] and the initialisation of
      [tasks]) as state-passing functions over a [World],

    and then states and proves the properties of the specification. *)

From Stdlib Require Import List NArith ZArith Bool Lia String Ascii Decimal DecimalZ DecimalPos DecimalFacts Sorted.
Import ListNotations.

#[local] Set Warnings "-register-all".
Local Open Scope N_scope.

(* ================================================================== *)
(** * Part I: definitions                                              *)
(* ================================================================== *)

(** ** JavaScript strings *)

(** A JavaScript string is a finite sequence of 16-bit code units; [length]
    counts code units. *)
Definition codeunit := N.
Definition jsstring := list codeunit.

(** [js "abc"] is the JavaScript string with the same characters, for
    literals written in ASCII. *)
Definition js (s : string) : jsstring :=
  map N_of_ascii (list_ascii_of_string s).

(** The double quote, U+0022. *)
Definition dquote : jsstring := [34].
(** The line feed, U+000A. *)
Definition newline : jsstring := [10].

Fixpoint jsstring_eqb (a b : jsstring) : bool :=
  match a, b with
  | [], [] => true
  | x :: a', y :: b' => (x =? y) && jsstring_eqb a' b'
  | _, _ => false
  end.

(** [s.substring(0, n)]. *)
Definition substring0 (n : nat) (s : jsstring) : jsstring := firstn n s.

(** The code points [String.prototype.trim] strips: ECMAScript's WhiteSpace
    (TAB, VT, FF, ZWNBSP and the Unicode category Zs) and LineTerminator
    (LF, CR, LS, PS).  All of them are single code units. *)
Definition isTrimSpace (c : codeunit) : bool :=
  (c =? 9) || (c =? 10) || (c =? 11) || (c =? 12) || (c =? 13) ||
  (c =? 32) || (c =? 160) || (c =? 5760) ||
  ((8192 <=? c) && (c <=? 8202)) ||
  (c =? 8232) || (c =? 8233) || (c =? 8239) || (c =? 8287) ||
  (c =? 12288) || (c =? 65279).

Fixpoint trimStart (s : jsstring) : jsstring :=
  match s with
  | [] => []
  | c :: r => if isTrimSpace c then trimStart r else s
  end.

Fixpoint trimEnd (s : jsstring) : jsstring :=
  match s with
  | [] => []
  | c :: r =>
      match trimEnd r with
      | [] => if isTrimSpace c then [] else [c]
      | r' => c :: r'
      end
  end.

(** [s.trim()]. *)
Definition trim (s : jsstring) : jsstring := trimEnd (trimStart s).

(** ** Number::toString on integers *)

Definition digit_char (d : N) : codeunit := 48 + d.

Fixpoint chars_of_uint (u : uint) : jsstring :=
  match u with
  | Nil => []
  | D0 r => digit_char 0 :: chars_of_uint r
  | D1 r => digit_char 1 :: chars_of_uint r
  | D2 r => digit_char 2 :: chars_of_uint r
  | D3 r => digit_char 3 :: chars_of_uint r
  | D4 r => digit_char 4 :: chars_of_uint r
  | D5 r => digit_char 5 :: chars_of_uint r
  | D6 r => digit_char 6 :: chars_of_uint r
  | D7 r => digit_char 7 :: chars_of_uint r
  | D8 r => digit_char 8 :: chars_of_uint r
  | D9 r => digit_char 9 :: chars_of_uint r
  end.

Definition chars_of_int (i : Decimal.int) : jsstring :=
  match i with
  | Pos u => chars_of_uint u
  | Neg u => 45 :: chars_of_uint u
  end.

(** A JavaScript number is a double.  The integers of magnitude at most
    2^53 are represented exactly, and Number::toString prints them in plain
    decimal notation; [Date.now()] always lies in that range. *)
Definition safeInteger (z : Z) : bool :=
  (Z.abs z <=? 9007199254740992)%Z.

(** [String(z)] for an integer [z] (faithful when [safeInteger z]). *)
Definition Number_toString (z : Z) : jsstring := chars_of_int (Z.to_int z).

Definition nat_toString (n : nat) : jsstring := Number_toString (Z.of_nat n).

(** ** JSON *)

Module JSON.

(** The values [JSON.parse] builds.  A number literal that denotes an
    integer exactly representable as a double is [JNum]; any other number
    literal (fraction, exponent, magnitude above 2^53) is kept as [JReal]
    with its decimal notation, its double value is not computed.  An object
    lists its properties in the order JavaScript enumerates them. *)
Inductive jsval : Type :=
| JNull
| JBool (b : bool)
| JNum (z : Z)
| JReal (d : Decimal.decimal)
| JStr (s : jsstring)
| JArr (items : list jsval)
| JObj (props : list (jsstring * jsval)).

Inductive token : Type :=
| TLBrace | TRBrace | TLBracket | TRBracket | TColon | TComma
| TString (s : jsstring)
| TInt (z : Z)
| TReal (d : Decimal.decimal)
| TTrue | TFalse | TNull.

(** *** Lexical grammar *)

(** JSON white space: TAB, LF, CR, SP. *)
Definition is_ws (c : codeunit) : bool :=
  (c =? 9) || (c =? 10) || (c =? 13) || (c =? 32).

Fixpoint skip_ws (s : jsstring) : jsstring :=
  match s with
  | [] => []
  | c :: r => if is_ws c then skip_ws r else s
  end.

Definition is_digit (c : codeunit) : bool := (48 <=? c) && (c <=? 57).

Definition digit_cons (c : codeunit) (u : uint) : uint :=
  if c =? 48 then D0 u else if c =? 49 then D1 u else if c =? 50 then D2 u
  else if c =? 51 then D3 u else if c =? 52 then D4 u else if c =? 53 then D5 u
  else if c =? 54 then D6 u else if c =? 55 then D7 u else if c =? 56 then D8 u
  else D9 u.

(** The longest run of decimal digits at the head of [s]. *)
Fixpoint lex_digits (s : jsstring) : uint * jsstring :=
  match s with
  | [] => (Nil, [])
  | c :: r =>
      if is_digit c then
        let (u, rest) := lex_digits r in (digit_cons c u, rest)
      else (Nil, s)
  end.

(** The integer part of a JSON number is [0] or starts with a digit 1-9. *)
Definition int_part_ok (u : uint) : bool :=
  match u with
  | Nil => false
  | D0 Nil => true
  | D0 _ => false
  | _ => true
  end.

Definition lex_fraction (s : jsstring) : option (option uint * jsstring) :=
  match s with
  | c :: r =>
      if c =? 46 then
        match lex_digits r with
        | (Nil, _) => None
        | (u, rest) => Some (Some u, rest)
        end
      else Some (None, s)
  | [] => Some (None, s)
  end.

Definition lex_exponent (s : jsstring) : option (option Decimal.int * jsstring) :=
  match s with
  | c :: r =>
      if (c =? 101) || (c =? 69) then
        let '(neg, r1) :=
          match r with
          | sg :: r' =>
              if sg =? 45 then (true, r')
              else if sg =? 43 then (false, r') else (false, r)
          | [] => (false, r)
          end in
        match lex_digits r1 with
        | (Nil, _) => None
        | (u, rest) => Some (Some (if neg then Neg u else Pos u), rest)
        end
      else Some (None, s)
  | [] => Some (None, s)
  end.

(** The token of a number literal; [-0] is read as [0], the two being equal
    under [===]. *)
Definition number_token (neg : bool) (ip : uint) (fr : option uint)
    (ex : option Decimal.int) : token :=
  let i := if neg then Neg ip else Pos ip in
  match fr, ex with
  | None, None =>
      if safeInteger (Z.of_int i) then TInt (Z.of_int i)
      else TReal (Decimal i Nil)
  | Some f, None => TReal (Decimal i f)
  | None, Some e => TReal (DecimalExp i Nil e)
  | Some f, Some e => TReal (DecimalExp i f e)
  end.

(** A number: [-? int frac? exp?]. *)
Definition lex_number (s : jsstring) : option (token * jsstring) :=
  let '(neg, s1) :=
    match s with
    | c :: r => if c =? 45 then (true, r) else (false, s)
    | [] => (false, s)
    end in
  let (ip, s2) := lex_digits s1 in
  if int_part_ok ip then
    match lex_fraction s2 with
    | Some (fr, s3) =>
        match lex_exponent s3 with
        | Some (ex, s4) => Some (number_token neg ip fr ex, s4)
        | None => None
        end
    | None => None
    end
  else None.

Definition hex_value (c : codeunit) : option N :=
  if (48 <=? c) && (c <=? 57) then Some (c - 48)
  else if (97 <=? c) && (c <=? 102) then Some (c - 87)
  else if (65 <=? c) && (c <=? 70) then Some (c - 55)
  else None.

Definition hex4 (h1 h2 h3 h4 : codeunit) : option codeunit :=
  match hex_value h1, hex_value h2, hex_value h3, hex_value h4 with
  | Some a, Some b, Some c, Some d => Some (a * 4096 + b * 256 + c * 16 + d)
  | _, _, _, _ => None
  end.

(** The single-character escapes: quote, backslash, slash, b, f, n, r, t. *)
Definition simple_escape (e : codeunit) : option codeunit :=
  if e =? 34 then Some 34
  else if e =? 92 then Some 92
  else if e =? 47 then Some 47
  else if e =? 98 then Some 8
  else if e =? 102 then Some 12
  else if e =? 110 then Some 10
  else if e =? 114 then Some 13
  else if e =? 116 then Some 9
  else None.

Definition prepend (c : codeunit) (x : option (jsstring * jsstring))
  : option (jsstring * jsstring) :=
  match x with
  | Some (str, rest) => Some (c :: str, rest)
  | None => None
  end.

(** The characters of a string literal after its opening quote, up to and
    including the closing quote; returns the string and the rest. *)
Fixpoint lex_string (s : jsstring) : option (jsstring * jsstring) :=
  match s with
  | [] => None
  | c :: r =>
      if c =? 34 then Some ([], r)
      else if c =? 92 then
        match r with
        | [] => None
        | e :: r1 =>
            if e =? 117 then
              match r1 with
              | h1 :: h2 :: h3 :: h4 :: r2 =>
                  match hex4 h1 h2 h3 h4 with
                  | Some u => prepend u (lex_string r2)
                  | None => None
                  end
              | _ => None
              end
            else
              match simple_escape e with
              | Some u => prepend u (lex_string r1)
              | None => None
              end
        end
      else if c <? 32 then None
      else prepend c (lex_string r)
  end.

Fixpoint strip_prefix (p s : jsstring) : option jsstring :=
  match p, s with
  | [], _ => Some s
  | a :: p', b :: s' => if a =? b then strip_prefix p' s' else None
  | _ :: _, [] => None
  end.

Definition lex_literal (word : string) (t : token) (s : jsstring)
  : option (token * jsstring) :=
  match strip_prefix (js word) s with
  | Some rest => Some (t, rest)
  | None => None
  end.

(** One token at the head of [s] (which does not start with white space). *)
Definition lex_token (s : jsstring) : option (token * jsstring) :=
  match s with
  | [] => None
  | c :: r =>
      if c =? 123 then Some (TLBrace, r)
      else if c =? 125 then Some (TRBrace, r)
      else if c =? 91 then Some (TLBracket, r)
      else if c =? 93 then Some (TRBracket, r)
      else if c =? 58 then Some (TColon, r)
      else if c =? 44 then Some (TComma, r)
      else if c =? 34 then
        match lex_string r with
        | Some (str, rest) => Some (TString str, rest)
        | None => None
        end
      else if (c =? 45) || is_digit c then lex_number s
      else if c =? 116 then lex_literal "true" TTrue s
      else if c =? 102 then lex_literal "false" TFalse s
      else if c =? 110 then lex_literal "null" TNull s
      else None
  end.

(** Every token takes at least one code unit, so [length s] is fuel enough. *)
Fixpoint tokenize (fuel : nat) (s : jsstring) : option (list token) :=
  match skip_ws s with
  | [] => Some []
  | c :: r =>
      match fuel with
      | O => None
      | S f =>
          match lex_token (c :: r) with
          | Some (t, rest) =>
              match tokenize f rest with
              | Some ts => Some (t :: ts)
              | None => None
              end
          | None => None
          end
      end
  end.

(** *** Syntactic grammar *)

(** A property key that is an array index (a canonical numeric string
    below 2^32 - 1): such keys are enumerated first, in ascending order. *)
Definition array_index (k : jsstring) : option N :=
  match lex_digits k with
  | (u, []) =>
      if int_part_ok u && (N.of_uint u <=? 4294967294)
      then Some (N.of_uint u) else None
  | _ => None
  end.

Definition has_property (k : jsstring) (props : list (jsstring * jsval)) : bool :=
  existsb (fun p => jsstring_eqb k (fst p)) props.

Fixpoint set_property (k : jsstring) (v : jsval) (props : list (jsstring * jsval))
  : list (jsstring * jsval) :=
  match props with
  | [] => []
  | (k', v') :: r =>
      if jsstring_eqb k k' then (k', v) :: r
      else (k', v') :: set_property k v r
  end.

Fixpoint insert_index (i : N) (k : jsstring) (v : jsval)
    (props : list (jsstring * jsval)) : list (jsstring * jsval) :=
  match props with
  | [] => [(k, v)]
  | (k', v') :: r =>
      match array_index k' with
      | Some j =>
          if j <? i then (k', v') :: insert_index i k v r
          else (k, v) :: props
      | None => (k, v) :: props
      end
  end.

(** CreateDataProperty on an ordinary object: a repeated key keeps its
    place and takes the new value, a new array index goes among the
    indices, any other new key goes last. *)
Definition define_property (props : list (jsstring * jsval))
    (kv : jsstring * jsval) : list (jsstring * jsval) :=
  let (k, v) := kv in
  if has_property k props then set_property k v props
  else
    match array_index k with
    | Some i => insert_index i k v props
    | None => props ++ [(k, v)]
    end.

Definition build_object (members : list (jsstring * jsval))
  : list (jsstring * jsval) :=
  fold_left define_property members [].

(** Recursive descent over the tokens; every call consumes a token before
    it recurses, so [S (length ts)] is fuel enough. *)
Fixpoint parse_value (fuel : nat) (ts : list token) {struct fuel}
  : option (jsval * list token) :=
  match fuel with
  | O => None
  | S f =>
      match ts with
      | TNull :: r => Some (JNull, r)
      | TTrue :: r => Some (JBool true, r)
      | TFalse :: r => Some (JBool false, r)
      | TInt z :: r => Some (JNum z, r)
      | TReal d :: r => Some (JReal d, r)
      | TString s :: r => Some (JStr s, r)
      | TLBracket :: TRBracket :: r => Some (JArr [], r)
      | TLBracket :: r =>
          match parse_value f r with
          | Some (v, r1) =>
              match parse_elements f r1 with
              | Some (vs, r2) => Some (JArr (v :: vs), r2)
              | None => None
              end
          | None => None
          end
      | TLBrace :: TRBrace :: r => Some (JObj [], r)
      | TLBrace :: TString k :: TColon :: r =>
          match parse_value f r with
          | Some (v, r1) =>
              match parse_members f r1 with
              | Some (kvs, r2) => Some (JObj (build_object ((k, v) :: kvs)), r2)
              | None => None
              end
          | None => None
          end
      | _ => None
      end
  end

with parse_elements (fuel : nat) (ts : list token) {struct fuel}
  : option (list jsval * list token) :=
  match fuel with
  | O => None
  | S f =>
      match ts with
      | TRBracket :: r => Some ([], r)
      | TComma :: r =>
          match parse_value f r with
          | Some (v, r1) =>
              match parse_elements f r1 with
              | Some (vs, r2) => Some (v :: vs, r2)
              | None => None
              end
          | None => None
          end
      | _ => None
      end
  end

with parse_members (fuel : nat) (ts : list token) {struct fuel}
  : option (list (jsstring * jsval) * list token) :=
  match fuel with
  | O => None
  | S f =>
      match ts with
      | TRBrace :: r => Some ([], r)
      | TComma :: TString k :: TColon :: r =>
          match parse_value f r with
          | Some (v, r1) =>
              match parse_members f r1 with
              | Some (kvs, r2) => Some ((k, v) :: kvs, r2)
              | None => None
              end
          | None => None
          end
      | _ => None
      end
  end.

(** [JSON.parse(text)]: [None] stands for the SyntaxError it throws. *)
Definition parse (text : jsstring) : option jsval :=
  match tokenize (List.length text) text with
  | Some ts =>
      match parse_value (S (List.length ts)) ts with
      | Some (v, []) => Some v
      | _ => None
      end
  | None => None
  end.

(** *** Truthiness (ToBoolean) *)

(** Whether the number a literal denotes rounds to the double zero: its
    magnitude is at most 2^-1075, half the smallest subnormal. *)
Definition real_is_zero (d : Decimal.decimal) : bool :=
  let '(i, f, e) :=
    match d with
    | Decimal i f => (i, f, 0%Z)
    | DecimalExp i f e => (i, f, Z.of_int e)
    end in
  let m := Z.of_uint (Decimal.app (Decimal.abs i) f) in
  let scale := (e - Z.of_nat (Decimal.nb_digits f))%Z in
  if (0 <=? scale)%Z then (m =? 0)%Z
  else (m * 2 ^ 1075 <=? 10 ^ (- scale))%Z.

Definition truthy (v : jsval) : bool :=
  match v with
  | JNull => false
  | JBool b => b
  | JNum z => negb (z =? 0)%Z
  | JReal d => negb (real_is_zero d)
  | JStr s => match s with [] => false | _ => true end
  | JArr _ => true
  | JObj _ => true
  end.

(** *** Serialisation *)

Definition hex_digit (d : N) : codeunit := if d <? 10 then 48 + d else 87 + d.

(** UnicodeEscape: backslash, [u] and four lower-case hexadecimal digits. *)
Definition unicode_escape (c : codeunit) : jsstring :=
  [92; 117; hex_digit (c / 4096 mod 16); hex_digit (c / 256 mod 16);
   hex_digit (c / 16 mod 16); hex_digit (c mod 16)].

Definition is_high_surrogate (c : codeunit) : bool := (55296 <=? c) && (c <=? 56319).
Definition is_low_surrogate (c : codeunit) : bool := (56320 <=? c) && (c <=? 57343).

(** QuoteJSONString on one code unit that is not part of a surrogate pair. *)
Definition quote_unit (c : codeunit) : jsstring :=
  if c =? 8 then [92; 98]
  else if c =? 9 then [92; 116]
  else if c =? 10 then [92; 110]
  else if c =? 12 then [92; 102]
  else if c =? 13 then [92; 114]
  else if c =? 34 then [92; 34]
  else if c =? 92 then [92; 92]
  else if (c <? 32) || is_high_surrogate c || is_low_surrogate c
  then unicode_escape c
  else [c].

(** The body of QuoteJSONString: a surrogate pair is copied, a lone
    surrogate is escaped. *)
Fixpoint quote_units (s : jsstring) : jsstring :=
  match s with
  | [] => []
  | c :: r =>
      if is_high_surrogate c then
        match r with
        | d :: r' =>
            if is_low_surrogate d then c :: d :: quote_units r'
            else quote_unit c ++ quote_units r
        | [] => quote_unit c
        end
      else quote_unit c ++ quote_units r
  end.

Definition quote (s : jsstring) : jsstring := 34 :: quote_units s ++ [34].

Fixpoint join (sep : jsstring) (parts : list jsstring) : jsstring :=
  match parts with
  | [] => []
  | [p] => p
  | p :: ps => p ++ sep ++ join sep ps
  end.

(** The common shape of SerializeJSONArray and SerializeJSONObject:
    [indent] is the indentation of the enclosing level, [gap] one step. *)
Definition wrap (opening closing : codeunit) (gap indent : jsstring)
    (partial : list jsstring) : jsstring :=
  match partial with
  | [] => [opening; closing]
  | _ =>
      match gap with
      | [] => opening :: join [44] partial ++ [closing]
      | _ =>
          let inner := indent ++ gap in
          opening :: newline ++ inner
            ++ join (44 :: newline ++ inner) partial
            ++ newline ++ indent ++ [closing]
      end
  end.

Definition member (gap : jsstring) (key : string) (value : jsstring) : jsstring :=
  quote (js key) ++ [58] ++ (match gap with [] => [] | _ => [32] end) ++ value.

Definition stringify_bool (b : bool) : jsstring :=
  if b then js "true" else js "false".

(** *** Reading a text as tokens *)

(** What may follow a number without being read as part of it. *)
Definition ends_number (rest : jsstring) : Prop :=
  match rest with
  | [] => True
  | c :: _ => is_digit c = false /\ c <> 46 /\ c <> 101 /\ c <> 69
  end.

(** [lexes s ts]: the tokenizer turns [s] into [ts], given fuel for it. *)
Definition lexes (s : jsstring) (ts : list token) : Prop :=
  forall fuel, (List.length s <= fuel)%nat -> tokenize fuel s = Some ts.

(** Every successful parse leaves fewer tokens than it was given. *)
Definition parse_consumes (fuel : nat) : Prop :=
  (forall ts v r, parse_value fuel ts = Some (v, r) ->
                  (List.length r < List.length ts)%nat) /\
  (forall ts vs r, parse_elements fuel ts = Some (vs, r) ->
                   (List.length r < List.length ts)%nat) /\
  (forall ts kvs r, parse_members fuel ts = Some (kvs, r) ->
                    (List.length r < List.length ts)%nat).

End JSON.

(** ** The data model *)

(** A task object, as [handleAddTask] creates it. *)
Record Task : Type := mkTask {
  id : Z;                 (* Date.now() at creation *)
  text : jsstring;
  completed : bool;
  createdAt : jsstring    (* new Date().toLocaleString() at creation *)
}.

(** The task as a JavaScript value: the four properties in creation order. *)
Definition js_of_task (t : Task) : JSON.jsval :=
  JSON.JObj [ (js "id", JSON.JNum (id t));
              (js "text", JSON.JStr (text t));
              (js "completed", JSON.JBool (completed t));
              (js "createdAt", JSON.JStr (createdAt t)) ].

Definition js_of_tasks (l : list Task) : JSON.jsval :=
  JSON.JArr (map js_of_task l).

(** SerializeJSONObject on a task; [indent] is the enclosing indentation. *)
Definition stringify_task (gap indent : jsstring) (t : Task) : jsstring :=
  JSON.wrap 123 125 gap indent
    [ JSON.member gap "id" (Number_toString (id t));
      JSON.member gap "text" (JSON.quote (text t));
      JSON.member gap "completed" (JSON.stringify_bool (completed t));
      JSON.member gap "createdAt" (JSON.quote (createdAt t)) ].

(** [JSON.stringify(tasks, null, space)] on an array of tasks; [space = 0]
    is [JSON.stringify(tasks)]. *)
Definition stringify_tasks (space : nat) (l : list Task) : jsstring :=
  let gap := repeat 32 (Nat.min 10 space) in
  JSON.wrap 91 93 gap [] (map (stringify_task gap gap) l).

(** ** Utilities of the script *)

(** [htmlEscapeMap[character]]: the entities of the ampersand, the two
    angle brackets, the double quote and the apostrophe. *)
Definition htmlEscapeMap (c : codeunit) : option jsstring :=
  if c =? 38 then Some (js "&amp;")
  else if c =? 60 then Some (js "&lt;")
  else if c =? 62 then Some (js "&gt;")
  else if c =? 34 then Some (js "&quot;")
  else if c =? 39 then Some (js "&#039;")
  else None.

(** [text.replace(regex, (character) => htmlEscapeMap[character])], the
    regular expression being the global character class of those five:
    every match is replaced by its entity, everything else is copied. *)
Fixpoint escapeHtml (text : jsstring) : jsstring :=
  match text with
  | [] => []
  | c :: r =>
      match htmlEscapeMap c with
      | Some entity => entity ++ escapeHtml r
      | None => c :: escapeHtml r
      end
  end.

(** ** Rendering *)

(** An [li] element: its class attribute and its [innerHTML]. *)
Record Element : Type := mkElement {
  className : jsstring;
  innerHTML : jsstring
}.

(** The template literal of [createTaskElement] up to the task text. *)
Definition row_before_text (t : Task) : jsstring :=
  newline ++
  js "        <input " ++ newline ++
  js "            type=" ++ dquote ++ js "checkbox" ++ dquote ++ js " " ++ newline ++
  js "            class=" ++ dquote ++ js "task-checkbox" ++ dquote ++ js " " ++ newline ++
  js "            " ++
  (if completed t then js "checked" else []) ++
  newline ++
  js "            onchange=" ++ dquote ++ js "handleToggleComplete(" ++
  Number_toString (id t) ++
  js ")" ++ dquote ++ newline ++
  js "            aria-label=" ++ dquote ++ js "Mark task as " ++
  (if completed t then js "incomplete" else js "complete") ++
  dquote ++ newline ++
  js "        >" ++ newline ++
  js "        <span class=" ++ dquote ++ js "task-text" ++ dquote ++ js ">".

(** The template literal of [createTaskElement] after the task text. *)
Definition row_after_text (t : Task) : jsstring :=
  js "</span>" ++ newline ++
  js "        <div class=" ++ dquote ++ js "task-actions" ++ dquote ++ js ">" ++ newline ++
  js "            <button " ++ newline ++
  js "                class=" ++ dquote ++ js "delete-btn" ++ dquote ++ js " " ++ newline ++
  js "                onclick=" ++ dquote ++ js "handleDeleteTask(" ++
  Number_toString (id t) ++
  js ")" ++ dquote ++ newline ++
  js "                aria-label=" ++ dquote ++ js "Delete task" ++ dquote ++ newline ++
  js "            >" ++ newline ++
  js "                " ++ [55357; 56785; 65039] ++ js " Delete" ++ newline ++
  js "            </button>" ++ newline ++
  js "        </div>" ++ newline ++
  js "    ".

Definition createTaskElement (t : Task) : Element :=
  {| className := js "task-item " ++ (if completed t then js "completed" else []);
     innerHTML := row_before_text t ++ escapeHtml (text t) ++ row_after_text t |}.

(** The three numbers [updateStatistics] puts on display. *)
Record Statistics : Type := mkStatistics {
  totalCount : Z;
  completedCount : Z;
  pendingCount : Z
}.

Definition updateStatistics (l : list Task) : Statistics :=
  let total := Z.of_nat (List.length l) in
  let done := Z.of_nat (List.length (filter completed l)) in
  {| totalCount := total; completedCount := done; pendingCount := (total - done)%Z |}.

(** What [renderAllTasks] leaves in the page: the rows of [tasksList], the
    [display] of the two containers, and the counters' values (the timed
    animation that brings them on screen is not modelled). *)
Record Page : Type := mkPage {
  tasksList : list Element;
  emptyStateDisplay : jsstring;
  tasksListDisplay : jsstring;
  counters : Statistics
}.

Definition render (l : list Task) : Page :=
  match l with
  | [] =>
      {| tasksList := [];
         emptyStateDisplay := js "block";
         tasksListDisplay := js "none";
         counters := updateStatistics l |}
  | _ =>
      {| tasksList := map createTaskElement l;
         emptyStateDisplay := js "none";
         tasksListDisplay := js "block";
         counters := updateStatistics l |}
  end.

(** ** The state and the environment *)

(** The [type] argument of [showNotification]. *)
Inductive kind : Type := success | error | warning | info.

(** What a handler does to the outside, in program order. *)
Inductive effect : Type :=
| Notify (message : jsstring) (type : kind) (duration : N)  (* showNotification *)
| Confirm (message : jsstring)                              (* the confirm prompt *)
| Download (filename content : jsstring)                    (* link.click() on the blob *)
| ConsoleError (label : jsstring)                           (* console.error *)
| Shake                                                     (* the 'shake' class, for 400 ms *)
| Focus.                                                    (* taskInput.focus() *)

(** The script's state: the global [tasks], the item ['tasks'] of
    [localStorage] ([None] when the key is absent), the text field, the
    page, and the effects so far (oldest first).  The handlers are modelled
    on a [tasks] that holds an array of task objects, which is what they
    themselves put there. *)
Record World : Type := mkWorld {
  tasks : list Task;
  storage : option jsstring;
  inputValue : jsstring;
  page : Page;
  effects : list effect
}.

(** What one event reads from the platform. *)
Record Env : Type := mkEnv {
  now : Z;                        (* Date.now() *)
  localeString : jsstring;        (* new Date().toLocaleString() *)
  isoString : jsstring;           (* new Date().toISOString() *)
  confirms : jsstring -> bool;    (* the user's answer to confirm(message) *)
  random : nat;                   (* Math.floor(Math.random() * 5) *)
  setItemThrows : bool;           (* localStorage.setItem throws (quota) *)
  downloadThrows : bool           (* the Blob / object URL calls throw *)
}.

Definition set_tasks (l : list Task) (w : World) : World :=
  {| tasks := l; storage := storage w; inputValue := inputValue w;
     page := page w; effects := effects w |}.

Definition set_storage (s : option jsstring) (w : World) : World :=
  {| tasks := tasks w; storage := s; inputValue := inputValue w;
     page := page w; effects := effects w |}.

Definition set_inputValue (v : jsstring) (w : World) : World :=
  {| tasks := tasks w; storage := storage w; inputValue := v;
     page := page w; effects := effects w |}.

Definition set_page (p : Page) (w : World) : World :=
  {| tasks := tasks w; storage := storage w; inputValue := inputValue w;
     page := p; effects := effects w |}.

Definition emit (e : effect) (w : World) : World :=
  {| tasks := tasks w; storage := storage w; inputValue := inputValue w;
     page := page w; effects := effects w ++ [e] |}.

(** [showNotification(message, type = 'info', duration = 3000)]. *)
Definition showNotification (message : jsstring) (type : kind) (duration : N)
    (w : World) : World :=
  emit (Notify message type duration) w.

(** ** Initialisation *)

Inductive exn : Type := SyntaxError.

Inductive completion (A : Type) : Type :=
| Normal (a : A)
| Throw (e : exn).
Arguments Normal {A} a.
Arguments Throw {A} e.

(** [JSON.parse(localStorage.getItem('tasks')) || []], the initial value of
    [tasks].  [getItem] gives [null] for an absent key, which [JSON.parse]
    converts to the text [null]. *)
Definition load (item : option jsstring) : completion JSON.jsval :=
  let text := match item with Some s => s | None => js "null" end in
  match JSON.parse text with
  | None => Throw SyntaxError
  | Some v => Normal (if JSON.truthy v then v else JSON.JArr [])
  end.

(** ** Persistence and rendering *)

Definition persistTasks (env : Env) (w : World) : World :=
  if setItemThrows env then
    showNotification (js "Failed to save tasks. Please try again.") error 3000
      (emit (ConsoleError (js "Failed to save tasks:")) w)
  else set_storage (Some (stringify_tasks 0 (tasks w))) w.

Definition renderAllTasks (w : World) : World :=
  set_page (render (tasks w)) w.

(** ** The event handlers *)

Definition handleAddTask (env : Env) (w : World) : World :=
  let taskText := trim (inputValue w) in
  match taskText with
  | [] =>
      showNotification (js "Please enter a task! " ++ [55357; 56541]) warning 3000
        (emit Shake w)
  | _ =>
      if (150 <? List.length taskText)%nat then
        showNotification
          (js "Task is too long! Keep it under 150 characters. " ++ [9999; 65039])
          warning 3000 w
      else
        let newTask :=
          {| id := now env; text := taskText; completed := false;
             createdAt := localeString env |} in
        let w1 := set_tasks (tasks w ++ [newTask]) w in
        let w2 := emit Focus (set_inputValue [] w1) in
        let w3 := renderAllTasks (persistTasks env w2) in
        showNotification
          (js "Task added successfully! " ++ [10024] ++ js " " ++ dquote
             ++ substring0 30 taskText ++ js "..." ++ dquote)
          success 3000 w3
  end.

Definition has_id (taskId : Z) (t : Task) : bool := (id t =? taskId)%Z.

(** The text of the confirm prompt of [handleDeleteTask]. *)
Definition delete_prompt (taskId : Z) (l : list Task) : jsstring :=
  let taskText :=
    match find (has_id taskId) l with
    | Some task => substring0 30 (text task)
    | None => js "Task"
    end in
  js "Delete " ++ dquote ++ taskText
    ++ (if (30 <? List.length taskText)%nat then js "..." else [])
    ++ dquote ++ js "? This cannot be undone.".

Definition handleDeleteTask (env : Env) (taskId : Z) (w : World) : World :=
  let prompt := delete_prompt taskId (tasks w) in
  let w0 := emit (Confirm prompt) w in
  if negb (confirms env prompt) then w0
  else
    let w1 := set_tasks (filter (fun task => negb (has_id taskId task)) (tasks w0)) w0 in
    let w2 := renderAllTasks (persistTasks env w1) in
    showNotification (js "Task deleted! " ++ [55357; 56785; 65039]) success 2000 w2.

(** [task.completed = !task.completed] on the task [tasks.find] returns,
    the first one with the id: the object is updated where it stands. *)
Fixpoint toggle_found (taskId : Z) (l : list Task) : list Task :=
  match l with
  | [] => []
  | t :: r =>
      if has_id taskId t then
        {| id := id t; text := text t; completed := negb (completed t);
           createdAt := createdAt t |} :: r
      else t :: toggle_found taskId r
  end.

Definition celebration : list jsstring :=
  [ [55356; 57225]; [55357; 56960]; [11088]; [55356; 57226]; [9989] ].

Definition handleToggleComplete (env : Env) (taskId : Z) (w : World) : World :=
  match find (has_id taskId) (tasks w) with
  | Some task =>
      let wasCompleted := completed task in
      let w1 := set_tasks (toggle_found taskId (tasks w)) w in
      let w2 := renderAllTasks (persistTasks env w1) in
      if negb wasCompleted then
        let emoji := nth (random env) celebration [] in
        showNotification (js "Great job! You crushed it! " ++ emoji) success 2000 w2
      else
        showNotification (js "Task marked as incomplete " ++ [8617; 65039]) info 1500 w2
  | None => w
  end.

(** [isoString.split('T')[0]]. *)
Fixpoint before_T (s : jsstring) : jsstring :=
  match s with
  | [] => []
  | c :: r => if c =? 84 then [] else c :: before_T r
  end.

Definition handleExportTasks (env : Env) (w : World) : World :=
  match tasks w with
  | [] =>
      showNotification
        (js "No tasks to export! Add some tasks first. " ++ [55357; 56541])
        warning 3000 w
  | _ =>
      if downloadThrows env then
        emit (ConsoleError (js "Export error:"))
          (showNotification
             (js "Failed to export tasks. Please try again. " ++ [10060])
             error 3000 w)
      else
        let dataStr := stringify_tasks 2 (tasks w) in
        let n := List.length (tasks w) in
        let w1 := emit (Download (js "tasks-" ++ before_T (isoString env) ++ js ".json") dataStr) w in
        showNotification
          (js "Exported " ++ nat_toString n ++ js " task"
             ++ (if Nat.eqb n 1 then [] else js "s")
             ++ js " successfully! " ++ [55357; 56549])
          success 3000 w1
  end.

(** ** Sequences of events *)

Inductive event : Type :=
| AddTask (env : Env) (input : jsstring)   (* type [input], then click Add *)
| DeleteTask (env : Env) (taskId : Z)
| ToggleComplete (env : Env) (taskId : Z)
| ExportTasks (env : Env).

Definition step (w : World) (e : event) : World :=
  match e with
  | AddTask env input => handleAddTask env (set_inputValue input w)
  | DeleteTask env taskId => handleDeleteTask env taskId w
  | ToggleComplete env taskId => handleToggleComplete env taskId w
  | ExportTasks env => handleExportTasks env w
  end.

Definition run (w : World) (es : list event) : World := fold_left step es w.

(** The world once the script has loaded with nothing stored: [tasks] is
    the empty array and [renderAllTasks()] has run. *)
Definition fresh : World :=
  {| tasks := []; storage := None; inputValue := [];
     page := render []; effects := [] |}.

(** The clock readings of the add events of a sequence. *)
Fixpoint add_times (es : list event) : list Z :=
  match es with
  | [] => []
  | AddTask env _ :: r => now env :: add_times r
  | _ :: r => add_times r
  end.

(** A check of escaped text: none of the two angle brackets, the double
    quote and the apostrophe occurs, and every ampersand starts one of the
    five entities [escapeHtml] writes. *)
Definition starts_with (p s : jsstring) : bool :=
  match JSON.strip_prefix p s with
  | Some _ => true
  | None => false
  end.

Definition entities : list jsstring :=
  [js "&amp;"; js "&lt;"; js "&gt;"; js "&quot;"; js "&#039;"].

Fixpoint no_raw_special (s : jsstring) : bool :=
  match s with
  | [] => true
  | c :: r =>
      (if c =? 38 then existsb (fun e => starts_with e s) entities
       else negb ((c =? 60) || (c =? 62) || (c =? 34) || (c =? 39)))
      && no_raw_special r
  end.

(** ** Names for what the handlers produce *)

(** The task [handleAddTask] creates from the text field. *)
Definition added (env : Env) (w : World) : Task :=
  mkTask (now env) (trim (inputValue w)) false (localeString env).

Definition deleted_message : jsstring := js "Task deleted! " ++ [55357; 56785; 65039].

Definition absent_prompt : jsstring :=
  js "Delete " ++ dquote ++ js "Task" ++ dquote ++ js "? This cannot be undone.".

(** What a failed write leaves in the effects. *)
Definition save_failure (env : Env) : list effect :=
  if setItemThrows env then
    [ConsoleError (js "Failed to save tasks:");
     Notify (js "Failed to save tasks. Please try again.") error 3000]
  else [].

(** The stored item mirrors the list: it holds [JSON.stringify(tasks)]. *)
Definition in_sync (w : World) : Prop :=
  storage w = Some (stringify_tasks 0 (tasks w)).

Definition nothing_to_export : jsstring :=
  js "No tasks to export! Add some tasks first. " ++ [55357; 56541].

(** The tokens of a serialised task, and of a serialised task list. *)
Definition tokens_of_task (t : Task) : list JSON.token :=
  [ JSON.TLBrace;
    JSON.TString (js "id"); JSON.TColon; JSON.TInt (id t); JSON.TComma;
    JSON.TString (js "text"); JSON.TColon; JSON.TString (text t); JSON.TComma;
    JSON.TString (js "completed"); JSON.TColon; (if completed t then JSON.TTrue else JSON.TFalse); JSON.TComma;
    JSON.TString (js "createdAt"); JSON.TColon; JSON.TString (createdAt t);
    JSON.TRBrace ].

Fixpoint tokens_of_more (l : list Task) : list JSON.token :=
  match l with
  | [] => [JSON.TRBracket]
  | t :: r => JSON.TComma :: tokens_of_task t ++ tokens_of_more r
  end.

Definition tokens_of_tasks (l : list Task) : list JSON.token :=
  match l with
  | [] => [JSON.TLBracket; JSON.TRBracket]
  | t :: r => JSON.TLBracket :: tokens_of_task t ++ tokens_of_more r
  end.

Definition safe_ids (l : list Task) : Prop :=
  Forall (fun t => safeInteger (id t) = true) l.

(** The write of the event, if it comes to one, goes through. *)
Definition writes_succeed (e : event) : Prop :=
  match e with
  | AddTask env _ | DeleteTask env _ | ToggleComplete env _ | ExportTasks env =>
      setItemThrows env = false
  end.

(** ** The rest of the script *)

(** The keypress listener of the text field: the Enter key adds the task. *)
Definition taskInput_keypress (key : jsstring) (env : Env) (w : World) : World :=
  if jsstring_eqb key (js "Enter") then handleAddTask env w else w.

(** [exportTasksToJSON()], which nothing calls.  It has neither the check
    for an empty list nor a try/catch: a platform call that throws ends it
    ([None]). *)
Definition exportTasksToJSON (env : Env) (w : World) : option World :=
  if downloadThrows env then None
  else Some (emit (Download (js "tasks.json") (stringify_tasks 2 (tasks w))) w).

(** ** Predicates for the properties *)

(** One of the five characters [escapeHtml] replaces. *)
Definition special (c : codeunit) : bool :=
  (c =? 38) || (c =? 60) || (c =? 62) || (c =? 34) || (c =? 39).

(** Neither the first nor the last code unit is one [trim] strips. *)
Definition trimmed (s : jsstring) : bool :=
  match s with
  | [] => true
  | c :: _ => negb (isTrimSpace c) && negb (isTrimSpace (last s 0))
  end.

(** A task text as the add handler lets it in: trimmed, 1 to 150 units. *)
Definition well_formed_text (s : jsstring) : bool :=
  (1 <=? List.length s)%nat && (List.length s <=? 150)%nat && trimmed s.

(** The three fields no handler writes after creation. *)
Definition same_identity (t u : Task) : Prop :=
  id t = id u /\ text t = text u /\ createdAt t = createdAt u.

(** Either nothing was ever stored and the list is empty, or the stored
    item mirrors the list. *)
Definition mirrored (w : World) : Prop :=
  (storage w = None /\ tasks w = []) \/ in_sync w.

(** What the event reads from the platform. *)
Definition env_of (e : event) : Env :=
  match e with
  | AddTask env _ | DeleteTask env _ | ToggleComplete env _ | ExportTasks env => env
  end.

(** ** Names for more of what the handlers show *)

Definition save_failed_message : jsstring := js "Failed to save tasks. Please try again.".

Definition completed_message (env : Env) : jsstring :=
  js "Great job! You crushed it! " ++ nth (random env) celebration [].

Definition incomplete_message : jsstring :=
  js "Task marked as incomplete " ++ [8617; 65039].

Definition export_failed_message : jsstring :=
  js "Failed to export tasks. Please try again. " ++ [10060].

Definition exported_message (n : nat) : jsstring :=
  js "Exported " ++ nat_toString n ++ js " task"
    ++ (if Nat.eqb n 1 then [] else js "s")
    ++ js " successfully! " ++ [55357; 56549].

(** ** Sample data *)

Definition sample_env : Env :=
  {| now := 1700000000000;
     localeString := js "11/14/2023, 10:13:20 PM";
     isoString := js "2023-11-14T22:13:20.000Z";
     confirms := fun _ => true;
     random := 0;
     setItemThrows := false;
     downloadThrows := false |}.

(** The readings of an event one millisecond later. *)
Definition sample_env_later : Env :=
  {| now := 1700000000001;
     localeString := js "11/14/2023, 10:13:20 PM";
     isoString := js "2023-11-14T22:13:20.001Z";
     confirms := fun _ => true;
     random := 3;
     setItemThrows := false;
     downloadThrows := false |}.

(** One task, added through the text field with blanks around the text. *)
Definition sample_world : World :=
  run fresh [AddTask sample_env (js "  Buy milk ")].

(** A text field holding [n] letters between blanks. *)
Definition typed (n : nat) (w : World) : World :=
  set_inputValue (js " " ++ repeat 97 n ++ js "  ") w.

(** An event during which the write to storage fails. *)
Definition sample_env_quota : Env :=
  {| now := 1700000000002;
     localeString := js "11/14/2023, 10:13:20 PM";
     isoString := js "2023-11-14T22:13:20.002Z";
     confirms := fun _ => true;
     random := 1;
     setItemThrows := true;
     downloadThrows := false |}.

(** An event during which the platform refuses the download. *)
Definition sample_env_no_blob : Env :=
  {| now := 1700000000003;
     localeString := js "11/14/2023, 10:13:20 PM";
     isoString := js "2023-11-14T22:13:20.003Z";
     confirms := fun _ => true;
     random := 2;
     setItemThrows := false;
     downloadThrows := true |}.

(* ================================================================== *)
(** * Part II: properties                                              *)
(* ================================================================== *)

(** ** Projections of the state updates *)

Section Toggle.

Variable taskId : Z.

Lemma find_has_id_In (l : list Task) :
  In taskId (map id l) -> exists t, find (has_id taskId) l = Some t.
Proof.
  induction l as [|t r IH]; simpl; [tauto|].
  intros [H|H].
  - unfold has_id. rewrite H, Z.eqb_refl. eauto.
  - destruct (has_id taskId t); eauto.
Qed.

Lemma find_has_id_absent (l : list Task) :
  ~ In taskId (map id l) -> find (has_id taskId) l = None.
Proof.
  induction l as [|t r IH]; simpl; [reflexivity|].
  intros H. unfold has_id at 1.
  destruct (Z.eqb_spec (id t) taskId) as [E|E]; [tauto|].
  apply IH. tauto.
Qed.

Lemma find_has_id_spec (l : list Task) (t : Task) :
  find (has_id taskId) l = Some t ->
  exists before after,
    l = before ++ t :: after /\ id t = taskId /\
    Forall (fun u => id u <> taskId) before.
Proof.
  induction l as [|u r IH]; simpl; [discriminate|].
  destruct (has_id taskId u) eqn:E.
  - intros [= <-]. exists [], r. repeat split; auto.
    apply Z.eqb_eq. exact E.
  - intros H. destruct (IH H) as (b & a & -> & Hid & Hb).
    exists (u :: b), a. repeat split; auto.
    constructor; auto. apply Z.eqb_neq. exact E.
Qed.

Lemma toggle_found_split (before after : list Task) (t : Task) :
  id t = taskId -> Forall (fun u => id u <> taskId) before ->
  toggle_found taskId (before ++ t :: after) =
  before ++ mkTask (id t) (text t) (negb (completed t)) (createdAt t) :: after.
Proof.
  intros Ht Hb. induction Hb as [|u b Hu Hb IH]; simpl.
  - unfold has_id. rewrite Ht, Z.eqb_refl. reflexivity.
  - unfold has_id at 1. apply Z.eqb_neq in Hu. rewrite Hu, IH. reflexivity.
Qed.

Lemma toggle_found_involutive (l : list Task) :
  toggle_found taskId (toggle_found taskId l) = l.
Proof.
  induction l as [|t r IH]; simpl; [reflexivity|].
  destruct (has_id taskId t) eqn:E; simpl.
  - unfold has_id in *. simpl. rewrite E, negb_involutive. destruct t; reflexivity.
  - rewrite E, IH. reflexivity.
Qed.

Lemma find_toggle_found (l : list Task) :
  find (has_id taskId) (toggle_found taskId l) =
  option_map (fun t => mkTask (id t) (text t) (negb (completed t)) (createdAt t))
    (find (has_id taskId) l).
Proof.
  induction l as [|t r IH]; simpl; [reflexivity|].
  destruct (has_id taskId t) eqn:E; simpl.
  - unfold has_id in *. simpl. rewrite E. reflexivity.
  - rewrite E. exact IH.
Qed.

Lemma filter_absent (l : list Task) :
  ~ In taskId (map id l) ->
  filter (fun task => negb (has_id taskId task)) l = l.
Proof.
  induction l as [|t r IH]; simpl; [reflexivity|].
  intros H. unfold has_id at 1.
  destruct (Z.eqb_spec (id t) taskId) as [E|E]; [tauto|].
  simpl. f_equal. apply IH. tauto.
Qed.

End Toggle.

Lemma tasks_persistTasks env w : tasks (persistTasks env w) = tasks w.
Proof. unfold persistTasks. destruct (setItemThrows env); reflexivity. Qed.

Lemma tasks_handleToggleComplete env taskId w :
  tasks (handleToggleComplete env taskId w) = toggle_found taskId (tasks w).
Proof.
  unfold handleToggleComplete.
  destruct (find (has_id taskId) (tasks w)) as [t|] eqn:E.
  - destruct (negb (completed t)); simpl; rewrite tasks_persistTasks; reflexivity.
  - clear env. induction (tasks w) as [|u r IH]; simpl in *; [reflexivity|].
    destruct (has_id taskId u); [discriminate|]. f_equal. auto.
Qed.

(** ** Toggling *)

(** C7. For every world and every id present in the list, one toggle
    negates the [completed] field of the task [find] returns, and a second
    toggle right after it brings that field, and the whole list, back to
    what they were. *)
Theorem toggle_twice_restores (env1 env2 : Env) (taskId : Z) (w : World) :
  In taskId (map id (tasks w)) ->
  exists t,
    find (has_id taskId) (tasks w) = Some t /\
    option_map completed
      (find (has_id taskId) (tasks (handleToggleComplete env1 taskId w)))
      = Some (negb (completed t)) /\
    option_map completed
      (find (has_id taskId)
         (tasks (handleToggleComplete env2 taskId (handleToggleComplete env1 taskId w))))
      = Some (completed t) /\
    tasks (handleToggleComplete env2 taskId (handleToggleComplete env1 taskId w))
      = tasks w.
Proof.
  intros Hin. destruct (find_has_id_In taskId _ Hin) as [t Ht].
  exists t. rewrite !tasks_handleToggleComplete, toggle_found_involutive.
  rewrite find_toggle_found, Ht. simpl. auto.
Qed.

(** C8. For every world and every id present in the list, the toggle
    rewrites the list in one place only: the first task with that id gets
    its [completed] negated and keeps [id], [text] and [createdAt]; the
    tasks before and after it, their order and their number stay. *)
Theorem toggle_changes_one_field (env : Env) (taskId : Z) (w : World) :
  In taskId (map id (tasks w)) ->
  exists before t after,
    tasks w = before ++ t :: after /\
    id t = taskId /\
    Forall (fun u => id u <> taskId) before /\
    tasks (handleToggleComplete env taskId w) =
      before ++ mkTask (id t) (text t) (negb (completed t)) (createdAt t) :: after /\
    List.length (tasks (handleToggleComplete env taskId w)) = List.length (tasks w).
Proof.
  intros Hin. destruct (find_has_id_In taskId _ Hin) as [t Ht].
  destruct (find_has_id_spec taskId _ _ Ht) as (b & a & Hl & Hid & Hb).
  exists b, t, a. rewrite tasks_handleToggleComplete, Hl.
  rewrite (toggle_found_split taskId b a t Hid Hb).
  repeat split; auto. rewrite !length_app. reflexivity.
Qed.

Lemma toggle_twice_restores_witness :
  exists t,
    find (has_id 1700000000000) (tasks sample_world) = Some t /\
    option_map completed
      (find (has_id 1700000000000)
         (tasks (handleToggleComplete sample_env 1700000000000 sample_world)))
      = Some (negb (completed t)) /\
    option_map completed
      (find (has_id 1700000000000)
         (tasks (handleToggleComplete sample_env_later 1700000000000
                   (handleToggleComplete sample_env 1700000000000 sample_world))))
      = Some (completed t) /\
    tasks (handleToggleComplete sample_env_later 1700000000000
             (handleToggleComplete sample_env 1700000000000 sample_world))
      = tasks sample_world.
Proof.
  apply (toggle_twice_restores sample_env sample_env_later 1700000000000 sample_world).
  vm_compute. left. reflexivity.
Defined.

Lemma toggle_changes_one_field_witness :
  exists before t after,
    tasks sample_world = before ++ t :: after /\
    id t = 1700000000000%Z /\
    Forall (fun u => id u <> 1700000000000%Z) before /\
    tasks (handleToggleComplete sample_env 1700000000000 sample_world) =
      before ++ mkTask (id t) (text t) (negb (completed t)) (createdAt t) :: after /\
    List.length (tasks (handleToggleComplete sample_env 1700000000000 sample_world))
      = List.length (tasks sample_world).
Proof.
  apply (toggle_changes_one_field sample_env 1700000000000 sample_world).
  vm_compute. left. reflexivity.
Defined.

(** ** Adding *)

Lemma trimStart_blank (s : jsstring) :
  forallb isTrimSpace s = true -> trimStart s = [].
Proof.
  induction s as [|c r IH]; simpl; [reflexivity|].
  intros H. apply andb_true_iff in H as [Hc Hr]. rewrite Hc. auto.
Qed.

Lemma trim_blank (s : jsstring) :
  forallb isTrimSpace s = true -> trim s = [].
Proof. intros H. unfold trim. rewrite (trimStart_blank s H). reflexivity. Qed.

Lemma handleAddTask_accepts (env : Env) (w : World) :
  trim (inputValue w) <> [] ->
  (List.length (trim (inputValue w)) <= 150)%nat ->
  handleAddTask env w =
  showNotification
    (js "Task added successfully! " ++ [10024] ++ js " " ++ dquote
       ++ substring0 30 (trim (inputValue w)) ++ js "..." ++ dquote)
    success 3000
    (renderAllTasks (persistTasks env
       (emit Focus (set_inputValue [] (set_tasks (tasks w ++ [added env w]) w))))).
Proof.
  intros Hne Hlen. unfold handleAddTask, added.
  destruct (trim (inputValue w)) as [|c r] eqn:E; [congruence|].
  destruct (Nat.ltb_spec 150 (List.length (c :: r))) as [H|H]; [lia|].
  reflexivity.
Qed.

Lemma handleAddTask_rejects_long (env : Env) (w : World) :
  (150 < List.length (trim (inputValue w)))%nat ->
  handleAddTask env w =
  showNotification
    (js "Task is too long! Keep it under 150 characters. " ++ [9999; 65039])
    warning 3000 w.
Proof.
  intros Hlen. unfold handleAddTask.
  destruct (trim (inputValue w)) as [|c r] eqn:E; [simpl in Hlen; lia|].
  destruct (Nat.ltb_spec 150 (List.length (c :: r))) as [H|H]; [reflexivity|lia].
Qed.

Lemma handleAddTask_rejects_blank (env : Env) (w : World) :
  trim (inputValue w) = [] ->
  handleAddTask env w =
  showNotification (js "Please enter a task! " ++ [55357; 56541]) warning 3000
    (emit Shake w).
Proof. intros H. unfold handleAddTask. rewrite H. reflexivity. Qed.

(** C9. When the text field is empty or holds white space only, the add
    handler leaves the task list and the stored item as they were, and all
    it does is shake the field and show the warning. *)
Theorem add_blank_is_rejected (env : Env) (w : World) :
  forallb isTrimSpace (inputValue w) = true ->
  tasks (handleAddTask env w) = tasks w /\
  storage (handleAddTask env w) = storage w /\
  effects (handleAddTask env w) =
    effects w ++ [Shake; Notify (js "Please enter a task! " ++ [55357; 56541]) warning 3000].
Proof.
  intros H. rewrite (handleAddTask_rejects_blank env w (trim_blank _ H)).
  simpl. rewrite <- app_assoc. auto.
Qed.

Lemma add_blank_is_rejected_witness :
  let w := set_inputValue [32; 9; 160; 10; 8195] sample_world in
  tasks (handleAddTask sample_env w) = tasks w /\
  storage (handleAddTask sample_env w) = storage w /\
  effects (handleAddTask sample_env w) =
    effects w ++ [Shake; Notify (js "Please enter a task! " ++ [55357; 56541]) warning 3000].
Proof.
  apply (add_blank_is_rejected sample_env
           (set_inputValue [32; 9; 160; 10; 8195] sample_world)).
  vm_compute. reflexivity.
Defined.

(** C3. A trimmed text of exactly 150 code units is accepted: the task
    with that text, [completed = false], goes to the end of the list, the
    list is written to storage (when the write goes through) and the last
    effect is the success notification.  A trimmed text of 151 code units
    or more is refused: list and storage stay, and the only effect is the
    warning. *)
Theorem add_length_boundary (env : Env) (w : World) :
  (List.length (trim (inputValue w)) = 150%nat ->
     tasks (handleAddTask env w) =
       tasks w ++ [mkTask (now env) (trim (inputValue w)) false (localeString env)] /\
     (setItemThrows env = false ->
        storage (handleAddTask env w) =
          Some (stringify_tasks 0 (tasks (handleAddTask env w)))) /\
     exists message earlier,
       effects (handleAddTask env w) = earlier ++ [Notify message success 3000]) /\
  ((151 <= List.length (trim (inputValue w)))%nat ->
     tasks (handleAddTask env w) = tasks w /\
     storage (handleAddTask env w) = storage w /\
     effects (handleAddTask env w) =
       effects w ++
       [Notify (js "Task is too long! Keep it under 150 characters. " ++ [9999; 65039])
          warning 3000]).
Proof.
  split.
  - intros Hlen.
    assert (Hne : trim (inputValue w) <> []).
    { intros E. rewrite E in Hlen. discriminate. }
    rewrite (handleAddTask_accepts env w Hne) by lia.
    unfold persistTasks.
    destruct (setItemThrows env); simpl; (split; [reflexivity|]); split;
      try discriminate; try reflexivity; eauto.
  - intros Hlen. rewrite (handleAddTask_rejects_long env w) by lia.
    simpl. auto.
Qed.

Lemma add_length_boundary_witness :
  (tasks (handleAddTask sample_env (typed 150 sample_world)) =
     tasks sample_world ++ [mkTask 1700000000000 (repeat 97 150) false
                              (js "11/14/2023, 10:13:20 PM")]) /\
  (tasks (handleAddTask sample_env (typed 151 sample_world)) = tasks sample_world).
Proof.
  split.
  - apply (proj1 (add_length_boundary sample_env (typed 150 sample_world))).
    vm_compute. reflexivity.
  - apply (proj2 (add_length_boundary sample_env (typed 151 sample_world))).
    vm_compute. apply le_n.
Defined.

(** ** Deleting *)

Lemma delete_prompt_absent (taskId : Z) (l : list Task) :
  ~ In taskId (map id l) -> delete_prompt taskId l = absent_prompt.
Proof.
  intros H. unfold delete_prompt. rewrite (find_has_id_absent taskId l H).
  reflexivity.
Qed.

Lemma handleDeleteTask_absent (env : Env) (taskId : Z) (w : World) :
  ~ In taskId (map id (tasks w)) ->
  tasks (handleDeleteTask env taskId w) = tasks w /\
  storage (handleDeleteTask env taskId w) =
    (if confirms env absent_prompt && negb (setItemThrows env)
     then Some (stringify_tasks 0 (tasks w)) else storage w) /\
  effects (handleDeleteTask env taskId w) =
    effects w ++ Confirm absent_prompt ::
      (if confirms env absent_prompt
       then save_failure env ++ [Notify deleted_message success 2000]
       else []).
Proof.
  intros H. unfold handleDeleteTask, save_failure.
  rewrite (delete_prompt_absent taskId _ H).
  destruct (confirms env absent_prompt); simpl; [|auto].
  rewrite (filter_absent taskId _ H). unfold persistTasks.
  destruct (setItemThrows env); simpl; rewrite <- ?app_assoc; auto.
Qed.

(** C10. When the delete handler gets an id that no task has, it still
    asks for confirmation, with the placeholder [Task] in the prompt; once
    confirmed it keeps the list as it is, writes it to storage again (when
    the write goes through) and ends with the success notification
    [Task deleted!] although nothing was removed. *)
Theorem delete_absent_confirms_and_reports (env : Env) (taskId : Z) (w : World) :
  ~ In taskId (map id (tasks w)) ->
  exists shown,
    effects (handleDeleteTask env taskId w) =
      effects w ++ Confirm absent_prompt :: shown /\
    (confirms env absent_prompt = true ->
       tasks (handleDeleteTask env taskId w) = tasks w /\
       (setItemThrows env = false ->
          storage (handleDeleteTask env taskId w) = Some (stringify_tasks 0 (tasks w))) /\
       shown = save_failure env ++ [Notify deleted_message success 2000]).
Proof.
  intros H. destruct (handleDeleteTask_absent env taskId w H) as (Ht & Hs & He).
  eexists. split; [exact He|].
  intros Hc. rewrite Hc in *. split; [exact Ht|]. split; [|reflexivity].
  intros Hw. rewrite Hs, Hw. reflexivity.
Qed.

Lemma delete_absent_confirms_and_reports_witness :
  exists shown,
    effects (handleDeleteTask sample_env 42 sample_world) =
      effects sample_world ++ Confirm absent_prompt :: shown /\
    (confirms sample_env absent_prompt = true ->
       tasks (handleDeleteTask sample_env 42 sample_world) = tasks sample_world /\
       (setItemThrows sample_env = false ->
          storage (handleDeleteTask sample_env 42 sample_world)
            = Some (stringify_tasks 0 (tasks sample_world))) /\
       shown = save_failure sample_env ++ [Notify deleted_message success 2000]).
Proof.
  apply (delete_absent_confirms_and_reports sample_env 42 sample_world).
  vm_compute. intros [H|[]]. discriminate H.
Defined.

(** C6, as the specification states it, fails: right after start-up with
    nothing stored, a confirmed delete of an id that no task has creates
    the stored item, so the stored state does change. *)
Lemma delete_absent_changes_storage :
  ~ In 42%Z (map id (tasks fresh)) /\
  storage fresh = None /\
  storage (handleDeleteTask sample_env 42 fresh) = Some (js "[]") /\
  storage (handleDeleteTask sample_env 42 fresh) <> storage fresh.
Proof.
  split; [intros []|]. vm_compute. repeat split. discriminate.
Qed.

(** C6, amended. For every world and every id that no task has, the delete
    handler leaves the in-memory list as it was; the stored item is either
    untouched (no confirmation, or the write failed) or becomes the
    serialisation of that unchanged list, so it is what it was before
    whenever it mirrored the list before the call. *)
Theorem delete_absent_is_noop (env : Env) (taskId : Z) (w : World) :
  ~ In taskId (map id (tasks w)) ->
  tasks (handleDeleteTask env taskId w) = tasks w /\
  (storage (handleDeleteTask env taskId w) = storage w \/
   storage (handleDeleteTask env taskId w) = Some (stringify_tasks 0 (tasks w))) /\
  (in_sync w -> storage (handleDeleteTask env taskId w) = storage w).
Proof.
  intros H. destruct (handleDeleteTask_absent env taskId w H) as (Ht & Hs & _).
  split; [exact Ht|]. rewrite Hs. unfold in_sync.
  destruct (confirms env absent_prompt && negb (setItemThrows env)); auto.
Qed.

Lemma delete_absent_is_noop_witness :
  tasks (handleDeleteTask sample_env 42 sample_world) = tasks sample_world /\
  storage (handleDeleteTask sample_env 42 sample_world) = storage sample_world.
Proof.
  destruct (delete_absent_is_noop sample_env 42 sample_world) as (Ht & _ & Hs).
  - vm_compute. intros [H|[]]. discriminate H.
  - split; [exact Ht|]. apply Hs. vm_compute. reflexivity.
Defined.

(** ** Ids *)

Lemma tasks_handleAddTask (env : Env) (w : World) :
  tasks (handleAddTask env w) = tasks w \/
  tasks (handleAddTask env w) = tasks w ++ [added env w].
Proof.
  destruct (trim (inputValue w)) as [|c r] eqn:E.
  - left. rewrite (handleAddTask_rejects_blank env w E). reflexivity.
  - destruct (Nat.ltb_spec 150 (List.length (trim (inputValue w)))) as [H|H].
    + left. rewrite (handleAddTask_rejects_long env w H). reflexivity.
    + right. rewrite (handleAddTask_accepts env w); [|congruence|exact H].
      simpl. apply tasks_persistTasks.
Qed.

Lemma tasks_handleDeleteTask (env : Env) (taskId : Z) (w : World) :
  tasks (handleDeleteTask env taskId w) = tasks w \/
  tasks (handleDeleteTask env taskId w) =
    filter (fun task => negb (has_id taskId task)) (tasks w).
Proof.
  unfold handleDeleteTask.
  destruct (confirms env (delete_prompt taskId (tasks w))); simpl; auto.
  right. apply tasks_persistTasks.
Qed.

Lemma tasks_handleExportTasks (env : Env) (w : World) :
  tasks (handleExportTasks env w) = tasks w.
Proof.
  unfold handleExportTasks. destruct (tasks w) eqn:E; simpl; auto.
  destruct (downloadThrows env); simpl; auto.
Qed.

Lemma map_id_toggle_found (taskId : Z) (l : list Task) :
  map id (toggle_found taskId l) = map id l.
Proof.
  induction l as [|t r IH]; simpl; [reflexivity|].
  destruct (has_id taskId t); simpl; congruence.
Qed.

Section FilteredIds.

Variable keep : Task -> bool.

Lemma filtered_id_was_there (l : list Task) (x : Z) :
  In x (map id (filter keep l)) -> In x (map id l).
Proof.
  rewrite !in_map_iff. intros (t & Ht & Hin).
  apply filter_In in Hin. exists t. tauto.
Qed.

Lemma filtered_ids_distinct (l : list Task) :
  NoDup (map id l) -> NoDup (map id (filter keep l)).
Proof.
  intros H. induction l as [|t r IH]; simpl; [constructor|].
  simpl in H. apply NoDup_cons_iff in H as [Hn Hr].
  destruct (keep t); simpl; [|exact (IH Hr)].
  apply NoDup_cons_iff. split; [|exact (IH Hr)].
  intros Hin. apply Hn. exact (filtered_id_was_there r (id t) Hin).
Qed.

End FilteredIds.

Lemma NoDup_app_disjoint {A} (l1 l2 : list A) :
  NoDup (l1 ++ l2) -> forall x, In x l1 -> ~ In x l2.
Proof.
  induction l1 as [|a r IH]; simpl; [tauto|].
  intros H x [<-|Hx] Hin; inversion H as [|? ? Hn Hr]; subst.
  - apply Hn. apply in_app_iff. auto.
  - exact (IH Hr x Hx Hin).
Qed.

(** One event keeps the ids apart, as long as its clock reading (if it is
    an add) is none of the ids in the list; and every id after the event
    is an id from before or that clock reading. *)
Lemma step_ids (w : World) (e : event) :
  NoDup (map id (tasks w)) ->
  (forall x, In x (add_times [e]) -> ~ In x (map id (tasks w))) ->
  NoDup (map id (tasks (step w e))) /\
  (forall x, In x (map id (tasks (step w e))) ->
             In x (map id (tasks w)) \/ In x (add_times [e])).
Proof.
  intros Hnd Hfresh. destruct e as [env input|env taskId|env taskId|env]; simpl.
  - destruct (tasks_handleAddTask env (set_inputValue input w)) as [E|E];
      rewrite E; simpl.
    + auto.
    + rewrite map_app. simpl. split.
      * apply NoDup_app; auto.
        -- constructor; [simpl; tauto|constructor].
        -- intros x Hx [<-|[]]. apply (Hfresh (now env)); simpl; auto.
      * intros x Hx. apply in_app_iff in Hx. simpl in Hx. tauto.
  - destruct (tasks_handleDeleteTask env taskId w) as [E|E]; rewrite E; auto.
    split; [apply filtered_ids_distinct; exact Hnd|].
    intros x Hx. left. eapply filtered_id_was_there; eauto.
  - rewrite tasks_handleToggleComplete, map_id_toggle_found. auto.
  - rewrite tasks_handleExportTasks. auto.
Qed.

Lemma add_times_cons (e : event) (es : list event) :
  add_times (e :: es) = add_times [e] ++ add_times es.
Proof. destruct e; reflexivity. Qed.

Lemma run_ids (es : list event) : forall w : World,
  NoDup (map id (tasks w)) ->
  NoDup (add_times es) ->
  (forall x, In x (add_times es) -> ~ In x (map id (tasks w))) ->
  NoDup (map id (tasks (run w es))).
Proof.
  induction es as [|e es IH]; intros w Hnd Ht Hfresh; simpl; [exact Hnd|].
  rewrite add_times_cons in Ht, Hfresh.
  destruct (step_ids w e Hnd) as [Hnd' Hsub].
  { intros x Hx. apply Hfresh. apply in_app_iff. auto. }
  apply IH; auto.
  - apply NoDup_app_remove_l in Ht. exact Ht.
  - intros x Hx Hin. destruct (Hsub x Hin) as [H|H].
    + apply (Hfresh x); [apply in_app_iff; auto|exact H].
    + exact (NoDup_app_disjoint _ _ Ht x H Hx).
Qed.

(** C2, as the specification states it, fails: two adds that read the same
    millisecond from the clock leave two tasks with one id. *)
Lemma same_millisecond_same_id :
  ~ NoDup (map id (tasks (run fresh [AddTask sample_env (js "Buy milk");
                                     AddTask sample_env (js "Buy bread")]))).
Proof.
  vm_compute. intros H. inversion H as [|? ? Hn _]; subst.
  apply Hn. left. reflexivity.
Qed.

(** C2, amended. For every sequence of add, delete, toggle and export
    events from the empty list in which no two adds read the same value
    from the clock, the tasks in the list have pairwise distinct ids. *)
Theorem ids_distinct_when_clock_advances (es : list event) :
  NoDup (add_times es) ->
  NoDup (map id (tasks (run fresh es))).
Proof.
  intros H. apply run_ids; [constructor|exact H|].
  intros x _ [].
Qed.

Lemma ids_distinct_when_clock_advances_witness :
  NoDup (map id (tasks (run fresh [AddTask sample_env (js "Buy milk");
                                  ToggleComplete sample_env 1700000000000;
                                  AddTask sample_env_later (js "Buy bread");
                                  DeleteTask sample_env 7]))).
Proof.
  apply (ids_distinct_when_clock_advances
           [AddTask sample_env (js "Buy milk");
            ToggleComplete sample_env 1700000000000;
            AddTask sample_env_later (js "Buy bread");
            DeleteTask sample_env 7]).
  vm_compute. constructor; [|constructor; [|constructor]]; simpl; intuition discriminate.
Defined.

(** ** Rendering *)

Lemma htmlEscapeMap_cases (c : codeunit) :
  (c = 38 /\ htmlEscapeMap c = Some (js "&amp;")) \/
  (c = 60 /\ htmlEscapeMap c = Some (js "&lt;")) \/
  (c = 62 /\ htmlEscapeMap c = Some (js "&gt;")) \/
  (c = 34 /\ htmlEscapeMap c = Some (js "&quot;")) \/
  (c = 39 /\ htmlEscapeMap c = Some (js "&#039;")) \/
  (c <> 38 /\ c <> 60 /\ c <> 62 /\ c <> 34 /\ c <> 39 /\ htmlEscapeMap c = None).
Proof.
  unfold htmlEscapeMap.
  destruct (N.eqb_spec c 38) as [->|?]; [left; split; reflexivity|right].
  destruct (N.eqb_spec c 60) as [->|?]; [left; split; reflexivity|right].
  destruct (N.eqb_spec c 62) as [->|?]; [left; split; reflexivity|right].
  destruct (N.eqb_spec c 34) as [->|?]; [left; split; reflexivity|right].
  destruct (N.eqb_spec c 39) as [->|?]; [left; split; reflexivity|right].
  repeat split; assumption.
Qed.

Lemma escapeHtml_app (a b : jsstring) :
  escapeHtml (a ++ b) = escapeHtml a ++ escapeHtml b.
Proof.
  induction a as [|c r IH]; simpl; [reflexivity|].
  destruct (htmlEscapeMap c); rewrite IH, ?app_assoc; reflexivity.
Qed.

Lemma escapeHtml_no_raw_special (s : jsstring) :
  no_raw_special (escapeHtml s) = true.
Proof.
  induction s as [|c r IH]; [reflexivity|].
  destruct (htmlEscapeMap_cases c)
    as [[-> E]|[[-> E]|[[-> E]|[[-> E]|[[-> E]|(H1 & H2 & H3 & H4 & H5 & E)]]]]];
    cbn [escapeHtml]; rewrite E.
  1-5: vm_compute (js _); cbn; exact IH.
  cbn [no_raw_special].
  apply N.eqb_neq in H1, H2, H3, H4, H5.
  rewrite H1, H2, H3, H4, H5, IH. reflexivity.
Qed.

(** C5. For every task of the list, the row that [renderAllTasks] paints
    at the task's position carries, between the opening and the closing
    tag of its text span, [escapeHtml] of the task text.  In that text
    every occurrence of each of the five special characters is replaced by
    its entity; so neither angle bracket, double quote nor apostrophe
    occurs in it, and every ampersand in it starts one of the entities. *)
Theorem rendered_text_is_escaped (w : World) (i : nat) (t : Task) :
  nth_error (tasks w) i = Some t ->
  exists row,
    nth_error (tasksList (page (renderAllTasks w))) i = Some row /\
    innerHTML row = row_before_text t ++ escapeHtml (text t) ++ row_after_text t /\
    (forall a c b,
       text t = a ++ c :: b -> In c [38; 60; 62; 34; 39] ->
       exists entity,
         htmlEscapeMap c = Some entity /\ In entity entities /\
         escapeHtml (text t) = escapeHtml a ++ entity ++ escapeHtml b) /\
    no_raw_special (escapeHtml (text t)) = true.
Proof.
  intros Hi. exists (createTaskElement t). split; [|split; [reflexivity|split]].
  - simpl. unfold render. destruct (tasks w) as [|u r] eqn:E.
    + destruct i; discriminate.
    + change (nth_error (map createTaskElement (u :: r)) i = Some (createTaskElement t)).
      apply map_nth_error. exact Hi.
  - intros a c b Ht Hc. rewrite Ht, escapeHtml_app. cbn [escapeHtml].
    destruct (htmlEscapeMap_cases c)
      as [[-> E]|[[-> E]|[[-> E]|[[-> E]|[[-> E]|(H1 & H2 & H3 & H4 & H5 & E)]]]]].
    1-5: rewrite E; eexists; split; [reflexivity|]; split; [simpl; tauto|reflexivity].
    simpl in Hc. intuition congruence.
  - apply escapeHtml_no_raw_special.
Qed.

Lemma rendered_text_is_escaped_witness :
  let t := mkTask 7 (js "<b>Tom & Jerry's</b>") true (js "today") in
  let w := set_tasks (tasks sample_world ++ [t]) sample_world in
  exists row,
    nth_error (tasksList (page (renderAllTasks w))) 1 = Some row /\
    innerHTML row =
      row_before_text t ++ js "&lt;b&gt;Tom &amp; Jerry&#039;s&lt;/b&gt;" ++ row_after_text t.
Proof.
  intros t w.
  destruct (rendered_text_is_escaped w 1 t) as (row & Hrow & Hhtml & _).
  - reflexivity.
  - exists row. split; [exact Hrow|]. rewrite Hhtml. reflexivity.
Defined.

(** ** JSON: what the lexer reads back from the serialiser *)

Module JSONFacts.
Import JSON.

(** *** Numbers *)

Lemma lex_digits_chars (u : uint) (rest : jsstring) :
  match rest with [] => True | c :: _ => is_digit c = false end ->
  lex_digits (chars_of_uint u ++ rest) = (u, rest).
Proof.
  intros Hrest. induction u; simpl;
    try (rewrite IHu; reflexivity).
  destruct rest as [|c r]; [reflexivity|]. simpl. rewrite Hrest. reflexivity.
Qed.

Lemma to_uint_int_part_ok (p : positive) : int_part_ok (Pos.to_uint p) = true.
Proof.
  pose proof (Unsigned.to_uint_nonzero p) as Hz.
  assert (Hn : unorm (Pos.to_uint p) = Pos.to_uint p).
  { rewrite <- (Unsigned.to_of (Pos.to_uint p)), Unsigned.of_to. reflexivity. }
  assert (Hh : nzhead (Pos.to_uint p) = Pos.to_uint p).
  { rewrite <- Hn at 2. symmetry. apply unorm_nzhead.
    intros E. apply Hz. rewrite <- Hn. apply unorm_0. exact E. }
  pose proof (nzhead_nonzero (Pos.to_uint p)) as Hd. rewrite Hh in Hd.
  pose proof (Unsigned.to_uint_nonnil p) as Hnil.
  destruct (Pos.to_uint p) as [|u|u|u|u|u|u|u|u|u|u]; try reflexivity.
  - congruence.
  - exfalso. apply (Hd u). reflexivity.
Qed.

Lemma lex_fraction_none (rest : jsstring) :
  ends_number rest -> lex_fraction rest = Some (None, rest).
Proof.
  destruct rest as [|c r]; [reflexivity|]. intros (_ & H & _). simpl.
  apply N.eqb_neq in H. rewrite H. reflexivity.
Qed.

Lemma lex_exponent_none (rest : jsstring) :
  ends_number rest -> lex_exponent rest = Some (None, rest).
Proof.
  destruct rest as [|c r]; [reflexivity|]. intros (_ & _ & H1 & H2). simpl.
  apply N.eqb_neq in H1, H2. rewrite H1, H2. reflexivity.
Qed.

Lemma ends_number_digits (rest : jsstring) :
  ends_number rest -> match rest with [] => True | c :: _ => is_digit c = false end.
Proof. destruct rest; simpl; tauto. Qed.

Lemma chars_of_uint_head (u : uint) (rest : jsstring) :
  u <> Nil ->
  exists c r, chars_of_uint u ++ rest = c :: r /\ is_digit c = true.
Proof.
  destruct u; [congruence|..]; intros _; simpl; eexists _, _; split; reflexivity.
Qed.

Lemma lex_number_unsigned (u : uint) (rest : jsstring) :
  int_part_ok u = true -> ends_number rest ->
  lex_number (chars_of_uint u ++ rest) = Some (number_token false u None None, rest).
Proof.
  intros Hok Hrest. unfold lex_number.
  destruct (chars_of_uint_head u rest) as (c & r & E & Hc).
  { intros ->. discriminate Hok. }
  rewrite E. replace (c =? 45) with false.
  - rewrite <- E, (lex_digits_chars u rest (ends_number_digits _ Hrest)), Hok.
    rewrite (lex_fraction_none _ Hrest), (lex_exponent_none _ Hrest). reflexivity.
  - unfold is_digit in Hc. symmetry. apply N.eqb_neq.
    apply andb_true_iff in Hc as [H1 H2]. apply N.leb_le in H1. lia.
Qed.

Lemma lex_number_negative (u : uint) (rest : jsstring) :
  int_part_ok u = true -> ends_number rest ->
  lex_number (45 :: chars_of_uint u ++ rest) = Some (number_token true u None None, rest).
Proof.
  intros Hok Hrest. unfold lex_number. rewrite N.eqb_refl.
  rewrite (lex_digits_chars u rest (ends_number_digits _ Hrest)), Hok.
  rewrite (lex_fraction_none _ Hrest), (lex_exponent_none _ Hrest). reflexivity.
Qed.

Lemma lex_number_toString (z : Z) (rest : jsstring) :
  safeInteger z = true -> ends_number rest ->
  lex_number (Number_toString z ++ rest) = Some (TInt z, rest).
Proof.
  intros Hsafe Hrest. unfold Number_toString.
  assert (Hval : forall (neg : bool) (u : uint),
             Z.to_int z = (if neg then Neg u else Pos u) ->
             number_token neg u None None = TInt z).
  { intros neg u E. unfold number_token. cbv zeta. rewrite <- E, DecimalZ.of_to, Hsafe.
    reflexivity. }
  destruct z as [|p|p]; cbn [Z.to_int chars_of_int] in *.
  - rewrite (lex_number_unsigned (D0 Nil) rest eq_refl Hrest).
    rewrite (Hval false (D0 Nil) eq_refl). reflexivity.
  - rewrite (lex_number_unsigned _ rest (to_uint_int_part_ok p) Hrest).
    rewrite (Hval false _ eq_refl). reflexivity.
  - change ((45 :: chars_of_uint (Pos.to_uint p)) ++ rest)
      with (45 :: chars_of_uint (Pos.to_uint p) ++ rest).
    rewrite (lex_number_negative _ rest (to_uint_int_part_ok p) Hrest).
    rewrite (Hval true _ eq_refl). reflexivity.
Qed.

Lemma Number_toString_head (z : Z) (rest : jsstring) :
  exists c r, Number_toString z ++ rest = c :: r /\ ((c =? 45) || is_digit c = true).
Proof.
  unfold Number_toString. destruct z as [|p|p]; cbn [Z.to_int chars_of_int].
  - eexists _, _. split; reflexivity.
  - destruct (chars_of_uint_head (Pos.to_uint p) rest (Unsigned.to_uint_nonnil p))
      as (c & r & E & Hc).
    exists c, r. split; [exact E|]. rewrite Hc. apply orb_true_r.
  - eexists _, _. split; reflexivity.
Qed.

Lemma lex_token_number (z : Z) (rest : jsstring) :
  safeInteger z = true -> ends_number rest ->
  lex_token (Number_toString z ++ rest) = Some (TInt z, rest).
Proof.
  intros Hsafe Hrest.
  destruct (Number_toString_head z rest) as (c & r & E & Hc).
  rewrite <- (lex_number_toString z rest Hsafe Hrest). rewrite E.
  unfold lex_token. rewrite Hc.
  assert (Hr : c = 45 \/ 48 <= c <= 57).
  { apply orb_true_iff in Hc as [H|H]; [left; apply N.eqb_eq; exact H|right].
    unfold is_digit in H. apply andb_true_iff in H as [H1 H2].
    apply N.leb_le in H1, H2. lia. }
  repeat match goal with
         | |- context [c =? ?k] =>
             replace (c =? k) with false by (symmetry; apply N.eqb_neq; lia)
         end.
  reflexivity.
Qed.

(** *** Strings *)

Lemma hex_value_digit (d : N) : d < 16 -> hex_value (hex_digit d) = Some d.
Proof.
  intros H. unfold hex_digit, hex_value.
  destruct (N.ltb_spec d 10) as [Hd|Hd].
  - replace (48 <=? 48 + d) with true by (symmetry; apply N.leb_le; lia).
    replace (48 + d <=? 57) with true by (symmetry; apply N.leb_le; lia).
    cbn [andb]. f_equal. lia.
  - replace (48 <=? 87 + d) with true by (symmetry; apply N.leb_le; lia).
    replace (87 + d <=? 57) with false by (symmetry; apply N.leb_gt; lia).
    replace (97 <=? 87 + d) with true by (symmetry; apply N.leb_le; lia).
    replace (87 + d <=? 102) with true by (symmetry; apply N.leb_le; lia).
    cbn [andb]. f_equal. lia.
Qed.

Lemma hex4_unicode_escape (c : codeunit) :
  c < 65536 ->
  hex4 (hex_digit (c / 4096 mod 16)) (hex_digit (c / 256 mod 16))
       (hex_digit (c / 16 mod 16)) (hex_digit (c mod 16)) = Some c.
Proof.
  intros H. unfold hex4.
  rewrite !hex_value_digit by (apply N.mod_lt; discriminate).
  f_equal.
  pose proof (N.div_mod c 16 ltac:(discriminate)) as E0.
  pose proof (N.div_mod (c / 16) 16 ltac:(discriminate)) as E1.
  pose proof (N.div_mod (c / 256) 16 ltac:(discriminate)) as E2.
  pose proof (N.div_mod (c / 4096) 16 ltac:(discriminate)) as E3.
  assert (D1 : c / 16 / 16 = c / 256) by (rewrite N.Div0.div_div; reflexivity).
  assert (D2 : c / 256 / 16 = c / 4096) by (rewrite N.Div0.div_div; reflexivity).
  assert (D3 : c / 4096 / 16 = 0).
  { rewrite N.Div0.div_div. apply N.div_small. exact H. }
  rewrite D1 in E1. rewrite D2 in E2. rewrite D3 in E3. lia.
Qed.

Lemma lex_string_raw (c : codeunit) (tail : jsstring) :
  c <> 34 -> c <> 92 -> 32 <= c ->
  lex_string (c :: tail) = prepend c (lex_string tail).
Proof.
  intros H1 H2 H3. cbn [lex_string].
  apply N.eqb_neq in H1, H2. rewrite H1, H2.
  replace (c <? 32) with false by (symmetry; apply N.ltb_ge; exact H3).
  reflexivity.
Qed.

Lemma lex_string_unicode_escape (c : codeunit) (tail : jsstring) :
  c < 65536 ->
  lex_string (unicode_escape c ++ tail) = prepend c (lex_string tail).
Proof.
  intros H. unfold unicode_escape.
  change (match hex4 (hex_digit (c / 4096 mod 16)) (hex_digit (c / 256 mod 16))
                     (hex_digit (c / 16 mod 16)) (hex_digit (c mod 16)) with
          | Some u => prepend u (lex_string tail)
          | None => None
          end = prepend c (lex_string tail)).
  rewrite (hex4_unicode_escape c H). reflexivity.
Qed.

Lemma lex_string_unit (c : codeunit) (tail : jsstring) :
  lex_string (quote_unit c ++ tail) = prepend c (lex_string tail).
Proof.
  unfold quote_unit.
  destruct (N.eqb_spec c 8) as [->|H8]; [reflexivity|].
  destruct (N.eqb_spec c 9) as [->|H9]; [reflexivity|].
  destruct (N.eqb_spec c 10) as [->|H10]; [reflexivity|].
  destruct (N.eqb_spec c 12) as [->|H12]; [reflexivity|].
  destruct (N.eqb_spec c 13) as [->|H13]; [reflexivity|].
  destruct (N.eqb_spec c 34) as [->|H34]; [reflexivity|].
  destruct (N.eqb_spec c 92) as [->|H92]; [reflexivity|].
  unfold is_high_surrogate, is_low_surrogate.
  destruct (N.ltb_spec c 32) as [Hlt|Hge]; cbn [orb].
  - apply lex_string_unicode_escape. lia.
  - destruct (N.leb_spec 55296 c), (N.leb_spec c 56319),
      (N.leb_spec 56320 c), (N.leb_spec c 57343); cbn [andb orb];
      solve [ apply lex_string_unicode_escape; lia
            | apply lex_string_raw; assumption ].
Qed.

Lemma lex_string_quote_units_bounded (n : nat) : forall (s rest : jsstring),
  (List.length s <= n)%nat ->
  lex_string (quote_units s ++ 34 :: rest) = Some (s, rest).
Proof.
  induction n as [|n IH]; intros s rest Hlen.
  - destruct s; [reflexivity|simpl in Hlen; lia].
  - destruct s as [|c r]; [reflexivity|]. simpl in Hlen.
    cbn [quote_units].
    assert (Hone : lex_string ((quote_unit c ++ quote_units r) ++ 34 :: rest)
                   = Some (c :: r, rest)).
    { rewrite <- app_assoc, lex_string_unit, IH by lia. reflexivity. }
    destruct (is_high_surrogate c) eqn:Hc; [|exact Hone].
    destruct r as [|d r'].
    { cbn [quote_units] in Hone. rewrite List.app_nil_r in Hone. exact Hone. }
    destruct (is_low_surrogate d) eqn:Hd; [|exact Hone].
    simpl in Hlen. cbn [List.app].
    unfold is_high_surrogate in Hc. unfold is_low_surrogate in Hd.
    apply andb_true_iff in Hc as [Hc1 Hc2]. apply andb_true_iff in Hd as [Hd1 Hd2].
    apply N.leb_le in Hc1, Hc2, Hd1, Hd2.
    change (lex_string (c :: d :: quote_units r' ++ 34 :: rest) = Some (c :: d :: r', rest)).
    rewrite lex_string_raw by lia. rewrite lex_string_raw by lia.
    rewrite IH by lia. reflexivity.
Qed.

Lemma lex_string_quote_units (s rest : jsstring) :
  lex_string (quote_units s ++ 34 :: rest) = Some (s, rest).
Proof. apply (lex_string_quote_units_bounded (List.length s)). apply le_n. Qed.

Lemma lex_token_quote (s rest : jsstring) :
  lex_token (quote s ++ rest) = Some (TString s, rest).
Proof.
  unfold quote.
  change (match lex_string ((quote_units s ++ [34]) ++ rest) with
          | Some (str, rest') => Some (TString str, rest')
          | None => None
          end = Some (TString s, rest)).
  rewrite <- app_assoc. cbn [List.app].
  rewrite lex_string_quote_units. reflexivity.
Qed.

(** *** Token streams *)

Lemma tokenize_skip_ws (fuel : nat) (s1 s2 : jsstring) :
  skip_ws s1 = skip_ws s2 -> tokenize fuel s1 = tokenize fuel s2.
Proof. intros H. destruct fuel; simpl; rewrite H; reflexivity. Qed.

Lemma skip_ws_app (a s : jsstring) :
  forallb is_ws a = true -> skip_ws (a ++ s) = skip_ws s.
Proof.
  induction a as [|c r IH]; simpl; [reflexivity|].
  intros H. apply andb_true_iff in H as [Hc Hr]. rewrite Hc. auto.
Qed.

Lemma lex_token_not_ws (c : codeunit) (r : jsstring) (x : token * jsstring) :
  lex_token (c :: r) = Some x -> is_ws c = false.
Proof.
  intros H. destruct (is_ws c) eqn:E; [|reflexivity]. exfalso.
  unfold is_ws in E.
  repeat (apply orb_true_iff in E as [E|E]); apply N.eqb_eq in E; subst c;
    discriminate H.
Qed.

Lemma lexes_nil : lexes [] [].
Proof. intros fuel _. destruct fuel; reflexivity. Qed.

Lemma lexes_ws (a s : jsstring) (ts : list token) :
  forallb is_ws a = true -> lexes s ts -> lexes (a ++ s) ts.
Proof.
  intros Ha Hs fuel Hfuel.
  rewrite (tokenize_skip_ws fuel (a ++ s) s (skip_ws_app a s Ha)).
  apply Hs. rewrite length_app in Hfuel. lia.
Qed.

Lemma lexes_tok (chars s : jsstring) (t : token) (ts : list token) :
  chars <> [] ->
  lex_token (chars ++ s) = Some (t, s) ->
  lexes s ts -> lexes (chars ++ s) (t :: ts).
Proof.
  intros Hne Hlex Hs fuel Hfuel.
  destruct chars as [|c r]; [congruence|]. cbn [List.app] in *.
  destruct fuel as [|f]; [simpl in Hfuel; lia|].
  cbn [tokenize skip_ws]. rewrite (lex_token_not_ws _ _ _ Hlex), Hlex.
  rewrite Hs; [reflexivity|]. simpl in Hfuel. rewrite length_app in Hfuel. lia.
Qed.

Lemma lexes_punct (c : codeunit) (t : token) (s : jsstring) (ts : list token) :
  In (c, t) [(123, TLBrace); (125, TRBrace); (91, TLBracket); (93, TRBracket);
             (58, TColon); (44, TComma)] ->
  lexes s ts -> lexes (c :: s) (t :: ts).
Proof.
  intros Hin Hs. apply (lexes_tok [c] s t ts); [discriminate| |exact Hs].
  simpl in Hin.
  repeat (destruct Hin as [Hin|Hin]; [injection Hin as <- <-; reflexivity|]).
  destruct Hin.
Qed.

Lemma lexes_quote (str s : jsstring) (ts : list token) :
  lexes s ts -> lexes (quote str ++ s) (TString str :: ts).
Proof.
  intros Hs. apply lexes_tok; [discriminate|apply lex_token_quote|exact Hs].
Qed.

Lemma lexes_number (z : Z) (s : jsstring) (ts : list token) :
  safeInteger z = true -> ends_number s ->
  lexes s ts -> lexes (Number_toString z ++ s) (TInt z :: ts).
Proof.
  intros Hz He Hs. apply lexes_tok; [|apply lex_token_number; assumption|exact Hs].
  destruct (Number_toString_head z []) as (c & r & E & _).
  rewrite List.app_nil_r in E. rewrite E. discriminate.
Qed.

Lemma lexes_bool (b : bool) (s : jsstring) (ts : list token) :
  lexes s ts ->
  lexes (stringify_bool b ++ s) ((if b then TTrue else TFalse) :: ts).
Proof.
  intros Hs. apply lexes_tok; [destruct b; discriminate|destruct b; reflexivity|exact Hs].
Qed.

(** *** Fuel *)

Lemma skip_ws_length (s : jsstring) : (List.length (skip_ws s) <= List.length s)%nat.
Proof.
  induction s as [|c r IH]; simpl; [lia|]. destruct (is_ws c); simpl; lia.
Qed.

Lemma lex_digits_length (s : jsstring) :
  (List.length (snd (lex_digits s)) <= List.length s)%nat /\
  (fst (lex_digits s) <> Nil -> List.length (snd (lex_digits s)) < List.length s)%nat.
Proof.
  induction s as [|c r [IH1 IH2]]; simpl; [split; [lia|congruence]|].
  destruct (is_digit c); simpl; [|split; [lia|congruence]].
  destruct (lex_digits r) as [u rest]. simpl in *. split; intros; lia.
Qed.

Lemma lex_string_length (s str rest : jsstring) :
  lex_string s = Some (str, rest) -> (List.length rest < List.length s)%nat.
Proof.
  revert str rest.
  induction s as [s IH] using (well_founded_induction
                                 (Wf_nat.well_founded_ltof _ (@List.length codeunit))).
  unfold Wf_nat.ltof in IH. intros str rest.
  destruct s as [|c r]; [discriminate|]. cbn [lex_string].
  destruct (c =? 34); [intros [= <- <-]; simpl; lia|].
  assert (Hp : forall (u : codeunit) (tail : jsstring),
             (List.length tail < List.length (c :: r))%nat ->
             prepend u (lex_string tail) = Some (str, rest) ->
             (List.length rest < List.length (c :: r))%nat).
  { intros u tail Hlen H. unfold prepend in H.
    destruct (lex_string tail) as [[str' rest']|] eqn:E; [|discriminate].
    injection H as <- <-. pose proof (IH tail Hlen _ _ E). lia. }
  destruct (c =? 92).
  - destruct r as [|e r1]; [discriminate|].
    destruct (e =? 117).
    + destruct r1 as [|h1 [|h2 [|h3 [|h4 r2]]]]; try discriminate.
      destruct (hex4 h1 h2 h3 h4); [|discriminate].
      apply Hp. simpl. lia.
    + destruct (simple_escape e); [|discriminate]. apply Hp. simpl. lia.
  - destruct (c <? 32); [discriminate|]. apply Hp. simpl. lia.
Qed.

Lemma strip_prefix_length (p s rest : jsstring) :
  strip_prefix p s = Some rest ->
  List.length s = (List.length p + List.length rest)%nat.
Proof.
  revert s. induction p as [|a p IH]; intros s; simpl.
  - intros [= ->]. reflexivity.
  - destruct s as [|b s]; [discriminate|]. destruct (a =? b); [|discriminate].
    intros H. simpl. rewrite (IH s H). reflexivity.
Qed.

Lemma lex_fraction_length (s rest : jsstring) (fr : option uint) :
  lex_fraction s = Some (fr, rest) -> (List.length rest <= List.length s)%nat.
Proof.
  unfold lex_fraction. destruct s as [|c r]; [intros [= <- <-]; lia|].
  destruct (c =? 46); [|intros [= <- <-]; lia].
  pose proof (proj1 (lex_digits_length r)) as H.
  destruct (lex_digits r) as [u rest']. simpl in H.
  destruct u; intros [= <- <-]; simpl; lia.
Qed.

Lemma lex_exponent_length (s rest : jsstring) (ex : option Decimal.int) :
  lex_exponent s = Some (ex, rest) -> (List.length rest <= List.length s)%nat.
Proof.
  unfold lex_exponent. destruct s as [|c r]; [intros [= <- <-]; lia|].
  destruct ((c =? 101) || (c =? 69)); [|intros [= <- <-]; lia].
  assert (Hs : forall neg r1, (List.length r1 <= List.length r)%nat ->
             match lex_digits r1 with
             | (Nil, _) => None
             | (u, rest0) => Some (Some (if neg : bool then Neg u else Pos u), rest0)
             end = Some (ex, rest) -> (List.length rest <= List.length (c :: r))%nat).
  { intros neg r1 Hr1. pose proof (proj1 (lex_digits_length r1)) as H.
    destruct (lex_digits r1) as [u rest']. simpl in H.
    destruct u; intros [= <- <-]; simpl; lia. }
  destruct r as [|sg r']; [apply (Hs false []); lia|].
  destruct (sg =? 45); [apply (Hs true r'); simpl; lia|].
  destruct (sg =? 43); [apply (Hs false r')|apply (Hs false (sg :: r'))]; simpl; lia.
Qed.

Lemma lex_number_length (s rest : jsstring) (t : token) :
  lex_number s = Some (t, rest) -> (List.length rest < List.length s)%nat.
Proof.
  unfold lex_number.
  set (p := match s with
            | c :: r => if c =? 45 then (true, r) else (false, s)
            | [] => (false, s)
            end).
  assert (Hp : (List.length (snd p) <= List.length s)%nat).
  { subst p. destruct s as [|c r]; simpl; [lia|]. destruct (c =? 45); simpl; lia. }
  destruct p as [neg s1]. simpl in Hp.
  pose proof (lex_digits_length s1) as [_ Hd].
  destruct (lex_digits s1) as [ip s2]. simpl in Hd.
  destruct (int_part_ok ip) eqn:Hok; [|discriminate].
  assert (Hnil : ip <> Nil) by (intros ->; discriminate Hok).
  specialize (Hd Hnil).
  destruct (lex_fraction s2) as [[fr s3]|] eqn:Ef; [|discriminate].
  destruct (lex_exponent s3) as [[ex s4]|] eqn:Ee; [|discriminate].
  intros [= <- <-].
  apply lex_fraction_length in Ef. apply lex_exponent_length in Ee. lia.
Qed.

Lemma lex_token_length (s rest : jsstring) (t : token) :
  lex_token s = Some (t, rest) -> (List.length rest < List.length s)%nat.
Proof.
  unfold lex_token, lex_literal. destruct s as [|c r]; [discriminate|].
  repeat match goal with
         | |- (if ?b then _ else _) = Some _ -> _ =>
             destruct b; [try (intros [= <- <-]; simpl; lia)|]
         end; try discriminate.
  - destruct (lex_string r) as [[str rest']|] eqn:E; [|discriminate].
    intros [= <- <-]. apply lex_string_length in E. simpl. lia.
  - apply lex_number_length.
  - destruct (strip_prefix (js "true") (c :: r)) eqn:E; [|discriminate].
    intros [= <- <-]. apply strip_prefix_length in E. rewrite E. simpl. lia.
  - destruct (strip_prefix (js "false") (c :: r)) eqn:E; [|discriminate].
    intros [= <- <-]. apply strip_prefix_length in E. rewrite E. simpl. lia.
  - destruct (strip_prefix (js "null") (c :: r)) eqn:E; [|discriminate].
    intros [= <- <-]. apply strip_prefix_length in E. rewrite E. simpl. lia.
Qed.

(** Once there is one unit of fuel per code unit, more fuel changes
    nothing: [None] from [tokenize (length s) s] is a lexical error. *)
Lemma tokenize_fuel (f1 : nat) : forall (f2 : nat) (s : jsstring),
  (List.length s <= f1)%nat -> (List.length s <= f2)%nat ->
  tokenize f1 s = tokenize f2 s.
Proof.
  induction f1 as [|f1 IH]; intros f2 s H1 H2.
  - destruct s; [|simpl in H1; lia]. destruct f2; reflexivity.
  - pose proof (skip_ws_length s) as Hs.
    destruct f2 as [|f2].
    + destruct s; [reflexivity|simpl in H2; lia].
    + cbn [tokenize]. destruct (skip_ws s) as [|c r]; [reflexivity|].
      destruct (lex_token (c :: r)) as [[t rest]|] eqn:E; [|reflexivity].
      apply lex_token_length in E. simpl in E, Hs.
      rewrite (IH f2 rest) by lia. reflexivity.
Qed.


Ltac parse_cases :=
  repeat match goal with
         | H : Some _ = Some _ |- _ => injection H as <- <-
         | H : None = Some _ |- _ => discriminate H
         | H : match ?x with _ => _ end = Some _ |- _ =>
             let E := fresh "E" in destruct x eqn:E
         end.

Lemma parse_consumes_all (fuel : nat) : parse_consumes fuel.
Proof.
  induction fuel as [|f (IHv & IHe & IHm)]; [repeat split; discriminate|].
  repeat split.
  - intros ts v r H. cbn [parse_value] in H. parse_cases; subst; simpl;
      repeat match goal with
             | H : parse_value f _ = Some _ |- _ => apply IHv in H
             | H : parse_elements f _ = Some _ |- _ => apply IHe in H
             | H : parse_members f _ = Some _ |- _ => apply IHm in H
             end; simpl in *; lia.
  - intros ts vs r H. cbn [parse_elements] in H. parse_cases; subst; simpl;
      repeat match goal with
             | H : parse_value f _ = Some _ |- _ => apply IHv in H
             | H : parse_elements f _ = Some _ |- _ => apply IHe in H
             end; simpl in *; lia.
  - intros ts kvs r H. cbn [parse_members] in H. parse_cases; subst; simpl;
      repeat match goal with
             | H : parse_value f _ = Some _ |- _ => apply IHv in H
             | H : parse_members f _ = Some _ |- _ => apply IHm in H
             end; simpl in *; lia.
Qed.


(** Once there is one unit of fuel per token, more fuel changes nothing:
    [None] from the parser is a syntax error, not a lack of fuel. *)
Lemma parse_fuel (f1 : nat) : forall (f2 : nat) (ts : list token),
  (List.length ts <= f1)%nat -> (List.length ts <= f2)%nat ->
  parse_value f1 ts = parse_value f2 ts /\
  parse_elements f1 ts = parse_elements f2 ts /\
  parse_members f1 ts = parse_members f2 ts.
Proof.
  induction f1 as [|f1 IH]; intros f2 ts H1 H2.
  - destruct ts; [|simpl in H1; lia]. destruct f2; repeat split; reflexivity.
  - destruct f2 as [|f2].
    { destruct ts; [repeat split; reflexivity|simpl in H2; lia]. }
    assert (IHv : forall r, (List.length r <= f1)%nat -> (List.length r <= f2)%nat ->
                            parse_value f1 r = parse_value f2 r)
      by (intros; apply IH; assumption).
    assert (IHe : forall r, (List.length r <= f1)%nat -> (List.length r <= f2)%nat ->
                            parse_elements f1 r = parse_elements f2 r)
      by (intros; apply IH; assumption).
    assert (IHm : forall r, (List.length r <= f1)%nat -> (List.length r <= f2)%nat ->
                            parse_members f1 r = parse_members f2 r)
      by (intros; apply IH; assumption).
    cbn [parse_value parse_elements parse_members].
    repeat split;
      repeat match goal with
             | |- match ?x with _ => _ end = match ?x with _ => _ end =>
                 is_var x; destruct x; try reflexivity
             end;
      simpl in H1, H2;
      match goal with
      | |- context [parse_value f1 ?r] =>
          rewrite (IHv r) by (simpl; lia);
          destruct (parse_value f2 r) as [[v r1]|] eqn:E; [|reflexivity];
          apply (proj1 (parse_consumes_all f2)) in E; simpl in E;
          first [ rewrite (IHe r1) by lia | rewrite (IHm r1) by lia ];
          reflexivity
      end.
Qed.

(** [JSON.parse] with any larger amounts of fuel gives the same result. *)
Lemma parse_fuel_independent (text : jsstring) (f1 f2 : nat) :
  (List.length text <= f1)%nat ->
  (forall ts, tokenize f1 text = Some ts -> (List.length ts < f2)%nat) ->
  parse text =
  match tokenize f1 text with
  | Some ts =>
      match parse_value f2 ts with
      | Some (v, []) => Some v
      | _ => None
      end
  | None => None
  end.
Proof.
  intros H1 H2. unfold parse.
  rewrite (tokenize_fuel (List.length text) f1 text) by lia.
  destruct (tokenize f1 text) as [ts|] eqn:E; [|reflexivity].
  specialize (H2 ts eq_refl).
  rewrite (proj1 (parse_fuel (S (List.length ts)) f2 ts ltac:(lia) ltac:(lia))).
  reflexivity.
Qed.

End JSONFacts.

(** ** The serialised task list read back *)

Import JSON JSONFacts.

Lemma forallb_is_ws_app (a b : jsstring) :
  forallb is_ws a = true -> forallb is_ws b = true -> forallb is_ws (a ++ b) = true.
Proof. intros Ha Hb. rewrite forallb_app, Ha, Hb. reflexivity. Qed.

Lemma forallb_is_ws_repeat (n : nat) : forallb is_ws (repeat 32 n) = true.
Proof. induction n; simpl; auto. Qed.

Lemma lexes_ws_cons (c : codeunit) (s : jsstring) (ts : list token) :
  is_ws c = true -> lexes s ts -> lexes (c :: s) ts.
Proof. intros Hc. apply (lexes_ws [c] s ts). simpl. rewrite Hc. reflexivity. Qed.

Ltac norm_app := repeat (progress (rewrite <- ?app_assoc; cbn [List.app])).

Ltac lex_step :=
  first
    [ apply lexes_quote
    | apply lexes_bool
    | apply lexes_number; [assumption|simpl; repeat split; discriminate|]
    | apply lexes_punct; [simpl; tauto|]
    | apply lexes_ws_cons; [reflexivity|]
    | apply lexes_ws; [assumption|] ].

Lemma lexes_stringify_task (gap indent : jsstring) (t : Task)
    (rest : jsstring) (ts : list token) :
  forallb is_ws gap = true -> forallb is_ws indent = true ->
  safeInteger (id t) = true ->
  lexes rest ts ->
  lexes (stringify_task gap indent t ++ rest) (tokens_of_task t ++ ts).
Proof.
  intros Hgap Hindent Hsafe Hrest.
  unfold stringify_task, wrap, member, tokens_of_task, newline.
  destruct gap as [|g gap'].
  - cbn [join]. norm_app. repeat lex_step. exact Hrest.
  - set (gap := g :: gap') in *.
    assert (Hinner : forallb is_ws (indent ++ gap) = true)
      by (apply forallb_is_ws_app; assumption).
    set (inner := indent ++ gap) in *.
    cbn [join]. norm_app. repeat lex_step. exact Hrest.
Qed.

Lemma join_cons (sep p : jsstring) (ps : list jsstring) :
  join sep (p :: ps) = p ++ match ps with [] => [] | _ => sep ++ join sep ps end.
Proof. destruct ps; simpl; [rewrite List.app_nil_r|]; reflexivity. Qed.

Lemma lexes_join_tasks (gap indent pad closing : jsstring) :
  forallb is_ws gap = true -> forallb is_ws indent = true ->
  forallb is_ws pad = true ->
  lexes closing [TRBracket] ->
  forall (r : list Task) (t : Task),
    safe_ids (t :: r) ->
    lexes (join (44 :: pad) (map (stringify_task gap indent) (t :: r)) ++ closing)
          (tokens_of_task t ++ tokens_of_more r).
Proof.
  intros Hgap Hindent Hpad Hclosing.
  induction r as [|u r IH]; intros t Hsafe; inversion Hsafe as [|? ? Ht Hr]; subst.
  - simpl. apply lexes_stringify_task; assumption.
  - cbn [map]. rewrite join_cons. cbn [map tokens_of_more] in *.
    norm_app. apply lexes_stringify_task; try assumption.
    apply lexes_punct; [simpl; tauto|]. apply lexes_ws; [assumption|].
    apply IH. exact Hr.
Qed.

(** The tokenizer reads the tokens of the tasks off the serialised list. *)
Lemma lexes_stringify_tasks (space : nat) (l : list Task) :
  safe_ids l -> lexes (stringify_tasks space l) (tokens_of_tasks l).
Proof.
  intros Hsafe. unfold stringify_tasks.
  pose proof (forallb_is_ws_repeat (Nat.min 10 space)) as Hgap.
  set (gap := repeat 32 (Nat.min 10 space)) in *.
  destruct l as [|t r].
  - simpl. repeat lex_step. apply lexes_nil.
  - unfold wrap, tokens_of_tasks, newline. cbn [map].
    change (stringify_task gap gap t :: map (stringify_task gap gap) r)
      with (map (stringify_task gap gap) (t :: r)).
    assert (Hclose : lexes [93] [TRBracket]) by (repeat lex_step; apply lexes_nil).
    destruct gap as [|g gap'] eqn:E.
    + apply lexes_punct; [simpl; tauto|].
      apply (lexes_join_tasks [] [] [] [93]); auto.
    + rewrite <- E in *. clear E.
      apply lexes_punct; [simpl; tauto|]. norm_app.
      apply lexes_ws_cons; [reflexivity|]. apply lexes_ws; [assumption|].
      apply (lexes_join_tasks gap gap (10 :: gap) (10 :: [93])); auto.
      apply lexes_ws_cons; [reflexivity|]. exact Hclose.
Qed.

(** *** Parsing the tokens *)

Lemma parse_value_task (fuel : nat) (t : Task) (rest : list token) :
  (5 <= fuel)%nat ->
  parse_value fuel (tokens_of_task t ++ rest) = Some (js_of_task t, rest).
Proof.
  intros H. destruct fuel as [|[|[|[|[|f]]]]]; try lia.
  destruct t as [i tx c ca]. destruct c; reflexivity.
Qed.

Lemma parse_elements_more (r : list Task) : forall (fuel : nat) (rest : list token),
  (List.length r + 6 <= fuel)%nat ->
  parse_elements fuel (tokens_of_more r ++ rest) = Some (map js_of_task r, rest).
Proof.
  induction r as [|u r IH]; intros fuel rest H.
  - destruct fuel; [lia|]. reflexivity.
  - destruct fuel as [|f]; [lia|]. simpl in H.
    cbn [tokens_of_more List.app parse_elements].
    rewrite <- app_assoc, parse_value_task by lia.
    rewrite IH by lia. reflexivity.
Qed.

Lemma parse_value_tasks (l : list Task) (fuel : nat) :
  (match l with [] => 1 | _ => List.length l + 6 end <= fuel)%nat ->
  parse_value fuel (tokens_of_tasks l) = Some (js_of_tasks l, []).
Proof.
  intros H. destruct fuel as [|f]; [destruct l; simpl in H; lia|].
  destruct l as [|t r]; [reflexivity|]. simpl in H.
  unfold tokens_of_tasks.
  change (parse_value (S f) (TLBracket :: tokens_of_task t ++ tokens_of_more r))
    with (match parse_value f (tokens_of_task t ++ tokens_of_more r) with
          | Some (v, r1) =>
              match parse_elements f r1 with
              | Some (vs, r2) => Some (JArr (v :: vs), r2)
              | None => None
              end
          | None => None
          end).
  rewrite parse_value_task by lia.
  rewrite <- (List.app_nil_r (tokens_of_more r)), parse_elements_more by lia.
  reflexivity.
Qed.

Lemma length_tokens_of_more (r : list Task) :
  (List.length r < List.length (tokens_of_more r))%nat.
Proof. induction r; simpl; lia. Qed.

(** [JSON.parse(JSON.stringify(tasks, null, space))] gives the tasks back:
    an array with one object per task, each with the four fields. *)
Lemma parse_stringify_tasks (space : nat) (l : list Task) :
  safe_ids l -> parse (stringify_tasks space l) = Some (js_of_tasks l).
Proof.
  intros Hsafe. unfold parse.
  rewrite (lexes_stringify_tasks space l Hsafe _ (le_n _)).
  rewrite parse_value_tasks; [reflexivity|].
  destruct l as [|t r]; simpl; [lia|].
  pose proof (length_tokens_of_more r). lia.
Qed.

Lemma js_of_task_inj (t u : Task) : js_of_task t = js_of_task u -> t = u.
Proof. destruct t, u. unfold js_of_task. simpl. intros [= -> -> -> ->]. reflexivity. Qed.

Lemma js_of_tasks_inj (l l' : list Task) : js_of_tasks l = js_of_tasks l' -> l = l'.
Proof.
  unfold js_of_tasks. intros [= H]. revert l' H.
  induction l as [|t r IH]; intros [|u r'] H; try discriminate; [reflexivity|].
  cbn [map] in H.
  assert (Ht : js_of_task t = js_of_task u) by congruence.
  assert (Hr : map js_of_task r = map js_of_task r') by congruence.
  apply js_of_task_inj in Ht. subst. f_equal. apply IH. exact Hr.
Qed.

(** ** Exporting *)

(** C4. Exporting the empty list only shows the warning: no download is
    triggered.  Exporting a non-empty list (when the platform calls go
    through) triggers one download and then the success notification; the
    downloaded document parses, as JSON, to an array with as many elements
    as the list has tasks, element by element the object with the four
    fields [id], [text], [completed], [createdAt] of the task at that
    place, so that the list is recovered from it.  The task list itself is
    not touched. *)
Theorem export_round_trips (env : Env) (w : World) :
  safe_ids (tasks w) ->
  tasks (handleExportTasks env w) = tasks w /\
  (tasks w = [] ->
     effects (handleExportTasks env w) =
       effects w ++ [Notify nothing_to_export warning 3000]) /\
  (tasks w <> [] -> downloadThrows env = false ->
     exists filename content message items,
       effects (handleExportTasks env w) =
         effects w ++ [Download filename content; Notify message success 3000] /\
       JSON.parse content = Some (JArr items) /\
       List.length items = List.length (tasks w) /\
       items = map js_of_task (tasks w) /\
       (forall l, js_of_tasks l = JArr items -> l = tasks w)).
Proof.
  intros Hsafe. split; [apply tasks_handleExportTasks|]. split.
  - intros E. unfold handleExportTasks. rewrite E. reflexivity.
  - intros Hne Hthrow. unfold handleExportTasks.
    destruct (tasks w) as [|t r] eqn:E; [congruence|].
    rewrite Hthrow. rewrite <- E in *. clear E t r.
    eexists _, _, _, (map js_of_task (tasks w)). split; [|split; [|split; [|split]]].
    + simpl. rewrite <- app_assoc. reflexivity.
    + apply (parse_stringify_tasks 2 (tasks w) Hsafe).
    + apply length_map.
    + reflexivity.
    + intros l Hl. apply js_of_tasks_inj. exact Hl.
Qed.

Lemma export_round_trips_witness :
  exists filename content message,
    effects (handleExportTasks sample_env sample_world) =
      effects sample_world ++ [Download filename content; Notify message success 3000] /\
    JSON.parse content = Some (js_of_tasks (tasks sample_world)).
Proof.
  destruct (export_round_trips sample_env sample_world) as (_ & _ & H).
  - unfold sample_world. simpl. constructor; [reflexivity|constructor].
  - destruct H as (filename & content & message & items & He & Hp & _ & Hi & _).
    + vm_compute. discriminate.
    + reflexivity.
    + exists filename, content, message. split; [exact He|].
      rewrite Hp, Hi. reflexivity.
Defined.

(** ** Loading *)

Lemma falsy_values (v : jsval) :
  truthy v = false <->
  v = JNull \/ v = JBool false \/ v = JNum 0 \/ v = JStr [] \/
  exists d, v = JReal d /\ real_is_zero d = true.
Proof.
  split.
  - destruct v as [|b|z|d|s|items|props]; simpl; intros H; try discriminate.
    + left. reflexivity.
    + subst b. right. left. reflexivity.
    + apply negb_false_iff in H. apply Z.eqb_eq in H. subst.
      right. right. left. reflexivity.
    + apply negb_false_iff in H. do 4 right. exists d. split; [reflexivity|exact H].
    + destruct s; [|discriminate]. do 3 right. left. reflexivity.
  - intros [->|[->|[->|[->|(d & -> & H)]]]]; simpl; try reflexivity.
    rewrite H. reflexivity.
Qed.

(** C1, as the specification states it, fails: a stored text that is not
    valid JSON makes the initialisation throw, and a stored text that
    parses to something that is no array of tasks is kept as the value of
    [tasks]. *)
Lemma corrupt_storage_is_not_discarded :
  (forall l, JSON.parse (js "{") <> Some (js_of_tasks l)) /\
  load (Some (js "{")) = Throw SyntaxError /\
  (forall l, JSON.parse (js "5") <> Some (js_of_tasks l)) /\
  load (Some (js "5")) = Normal (JNum 5) /\
  load (Some (js "5")) <> Normal (JArr []).
Proof.
  repeat split; try (intros l; vm_compute; discriminate); vm_compute;
    try reflexivity; discriminate.
Qed.

(** C1, amended. [load] yields the empty list when the key is absent and
    when the stored text parses to a falsy value ([null], [false], a zero,
    the empty string); a stored text that is not valid JSON makes it throw
    a SyntaxError; a stored text that parses to any other value, array or
    not, is returned as it is. *)
Theorem load_outcomes (text : jsstring) :
  load None = Normal (JArr []) /\
  (JSON.parse text = None -> load (Some text) = Throw SyntaxError) /\
  (forall v, JSON.parse text = Some v -> truthy v = false ->
     load (Some text) = Normal (JArr [])) /\
  (forall v, JSON.parse text = Some v -> truthy v = true ->
     load (Some text) = Normal v) /\
  (forall v, truthy v = false <->
     v = JNull \/ v = JBool false \/ v = JNum 0 \/ v = JStr [] \/
     exists d, v = JReal d /\ real_is_zero d = true).
Proof.
  split; [reflexivity|]. unfold load. repeat split.
  - intros ->. reflexivity.
  - intros v -> H. rewrite H. reflexivity.
  - intros v -> H. rewrite H. reflexivity.
  - apply falsy_values.
  - apply falsy_values.
Qed.

Lemma load_outcomes_witness :
  load None = Normal (JArr []) /\
  load (Some (js "[1, 2")) = Throw SyntaxError /\
  load (Some (js "0.0")) = Normal (JArr []) /\
  load (Some (js "{}")) = Normal (JObj []).
Proof.
  split; [exact (proj1 (load_outcomes []))|]. split; [|split].
  - apply (proj1 (proj2 (load_outcomes (js "[1, 2")))). reflexivity.
  - apply (proj1 (proj2 (proj2 (load_outcomes (js "0.0"))))
             (JReal (Decimal (Pos (D0 Nil)) (D0 Nil)))); reflexivity.
  - apply (proj1 (proj2 (proj2 (proj2 (load_outcomes (js "{}"))))) (JObj []));
      reflexivity.
Defined.

(** What [persistTasks] wrote is what the next start-up loads. *)
Lemma load_persisted (l : list Task) :
  safe_ids l -> load (Some (stringify_tasks 0 l)) = Normal (js_of_tasks l).
Proof.
  intros H. unfold load. rewrite (parse_stringify_tasks 0 l H). reflexivity.
Qed.

(** ** Invariants of the reachable states *)

Lemma safe_ids_toggle_found (taskId : Z) (l : list Task) :
  safe_ids l -> safe_ids (toggle_found taskId l).
Proof.
  unfold safe_ids. induction 1 as [|t r Ht Hr IH]; simpl; [constructor|].
  destruct (has_id taskId t); constructor; auto.
Qed.

Lemma safe_ids_filter (keep : Task -> bool) (l : list Task) :
  safe_ids l -> safe_ids (filter keep l).
Proof.
  unfold safe_ids. rewrite !Forall_forall. intros H t Ht.
  apply filter_In in Ht. apply H. tauto.
Qed.

Lemma step_safe_ids (w : World) (e : event) :
  Forall (fun z => safeInteger z = true) (add_times [e]) ->
  safe_ids (tasks w) -> safe_ids (tasks (step w e)).
Proof.
  intros Hclock Hw. destruct e as [env input|env taskId|env taskId|env]; simpl.
  - destruct (tasks_handleAddTask env (set_inputValue input w)) as [E|E];
      rewrite E; simpl; [exact Hw|].
    apply Forall_app. split; [exact Hw|].
    constructor; [|constructor]. inversion Hclock; assumption.
  - destruct (tasks_handleDeleteTask env taskId w) as [E|E]; rewrite E;
      [exact Hw|apply safe_ids_filter; exact Hw].
  - rewrite tasks_handleToggleComplete. apply safe_ids_toggle_found. exact Hw.
  - rewrite tasks_handleExportTasks. exact Hw.
Qed.

(** As long as the clock gives integers a double holds exactly (it always
    does), every id in the list is such an integer. *)
Lemma run_safe_ids (es : list event) : forall w : World,
  Forall (fun z => safeInteger z = true) (add_times es) ->
  safe_ids (tasks w) -> safe_ids (tasks (run w es)).
Proof.
  induction es as [|e es IH]; intros w Hclock Hw; simpl; [exact Hw|].
  rewrite add_times_cons in Hclock. apply Forall_app in Hclock as [He Hes].
  apply IH; [exact Hes|]. apply step_safe_ids; assumption.
Qed.

Lemma persistTasks_in_sync (env : Env) (w : World) :
  setItemThrows env = false -> in_sync (persistTasks env w).
Proof. intros H. unfold persistTasks, in_sync. rewrite H. reflexivity. Qed.

(** While the writes go through, the stored item keeps mirroring the list. *)
Lemma step_in_sync (w : World) (e : event) :
  writes_succeed e -> in_sync w -> in_sync (step w e).
Proof.
  intros He Hw. destruct e as [env input|env taskId|env taskId|env]; simpl in *.
  - unfold handleAddTask.
    destruct (trim (inputValue (set_inputValue input w))) as [|c r]; [exact Hw|].
    destruct (150 <? List.length (c :: r))%nat; [exact Hw|].
    unfold in_sync, persistTasks. simpl. rewrite He. reflexivity.
  - unfold handleDeleteTask.
    destruct (confirms env (delete_prompt taskId (tasks w))); simpl; [|exact Hw].
    unfold in_sync, persistTasks. simpl. rewrite He. reflexivity.
  - unfold handleToggleComplete.
    destruct (find (has_id taskId) (tasks w)) as [t|]; [|exact Hw].
    unfold in_sync, persistTasks. simpl. rewrite He.
    destruct (negb (completed t)); reflexivity.
  - unfold handleExportTasks. destruct (tasks w) eqn:E; [exact Hw|].
    destruct (downloadThrows env); exact Hw.
Qed.

(** The counters [updateStatistics] shows add up. *)
Lemma statistics_add_up (l : list Task) :
  (pendingCount (updateStatistics l) + completedCount (updateStatistics l)
   = totalCount (updateStatistics l))%Z /\
  (0 <= pendingCount (updateStatistics l))%Z.
Proof.
  unfold updateStatistics. simpl. split; [lia|].
  pose proof (filter_length_le completed l). lia.
Qed.

(** ** Worked examples *)

(** The scenario of the specification: add, then toggle. *)
Example scenario_buy_milk :
  tasks sample_world =
    [mkTask 1700000000000 (js "Buy milk") false (js "11/14/2023, 10:13:20 PM")] /\
  tasks (handleToggleComplete sample_env_later 1700000000000 sample_world) =
    [mkTask 1700000000000 (js "Buy milk") true (js "11/14/2023, 10:13:20 PM")] /\
  counters (page (handleToggleComplete sample_env_later 1700000000000 sample_world)) =
    mkStatistics 1 1 0.
Proof. vm_compute. auto. Qed.

Example escapeHtml_script_tag :
  escapeHtml (js "<script>alert('x')</script>") =
  js "&lt;script&gt;alert(&#039;x&#039;)&lt;/script&gt;".
Proof. reflexivity. Qed.

Example stored_sample :
  storage sample_world =
  Some (js "[{" ++ dquote ++ js "id" ++ dquote ++ js ":1700000000000,"
          ++ dquote ++ js "text" ++ dquote ++ js ":" ++ dquote ++ js "Buy milk" ++ dquote
          ++ js "," ++ dquote ++ js "completed" ++ dquote ++ js ":false,"
          ++ dquote ++ js "createdAt" ++ dquote ++ js ":"
          ++ dquote ++ js "11/14/2023, 10:13:20 PM" ++ dquote ++ js "}]").
Proof. reflexivity. Qed.

Example parse_samples :
  parse (js " [1, -0, 2.5e3, true, null, {}] ") =
    Some (JArr [JNum 1; JNum 0;
                JReal (DecimalExp (Pos (D2 Nil)) (D5 Nil) (Pos (D3 Nil)));
                JBool true; JNull; JObj []]) /\
  parse (js "[1, 2") = None /\
  parse (js "01") = None /\
  parse (js "{1: 2}") = None /\
  parse [] = None.
Proof. vm_compute. auto. Qed.

(* ================================================================== *)
(** * Part III: further properties of the script                       *)
(* ================================================================== *)

(** ** What one event does to the list *)

Lemma step_tasks_cases (w : World) (e : event) :
  tasks (step w e) = tasks w \/
  (exists env input,
     e = AddTask env input /\ trim input <> [] /\
     (List.length (trim input) <= 150)%nat /\
     tasks (step w e) =
       tasks w ++ [mkTask (now env) (trim input) false (localeString env)]) \/
  (exists env taskId,
     e = DeleteTask env taskId /\ confirms env (delete_prompt taskId (tasks w)) = true /\
     tasks (step w e) = filter (fun task => negb (has_id taskId task)) (tasks w)) \/
  (exists env taskId,
     e = ToggleComplete env taskId /\
     tasks (step w e) = toggle_found taskId (tasks w)).
Proof.
  destruct e as [env input|env taskId|env taskId|env]; simpl.
  - destruct (trim input) as [|c r] eqn:E.
    + left. apply (f_equal tasks (handleAddTask_rejects_blank env (set_inputValue input w) E)).
    + destruct (Nat.ltb_spec 150 (List.length (trim input))) as [H|H].
      * left. apply (f_equal tasks (handleAddTask_rejects_long env (set_inputValue input w) H)).
      * right. left. exists env, input. rewrite E in *.
        repeat split; [discriminate|exact H|].
        rewrite (handleAddTask_accepts env (set_inputValue input w));
          [|simpl; congruence|simpl; rewrite E; exact H].
        simpl. rewrite tasks_persistTasks. simpl. unfold added. simpl. rewrite E.
        reflexivity.
  - unfold handleDeleteTask.
    destruct (confirms env (delete_prompt taskId (tasks w))) eqn:E; simpl; [|auto].
    right. right. left. exists env, taskId. rewrite tasks_persistTasks. auto.
  - right. right. right. exists env, taskId. split; [reflexivity|].
    apply tasks_handleToggleComplete.
  - left. apply tasks_handleExportTasks.
Qed.

(** ** Adding *)

Lemma trimStart_head (s : jsstring) (c : codeunit) (r : jsstring) :
  trimStart s = c :: r -> isTrimSpace c = false.
Proof.
  induction s as [|d s IH]; simpl; [discriminate|].
  destruct (isTrimSpace d) eqn:E; [exact IH|]. intros [= <- _]. exact E.
Qed.

Lemma trimEnd_head (s : jsstring) (c : codeunit) (r : jsstring) :
  trimEnd s = c :: r -> exists r0, s = c :: r0.
Proof.
  destruct s as [|d s]; simpl; [discriminate|].
  destruct (trimEnd s); [destruct (isTrimSpace d); [discriminate|]|];
    intros [= <- _]; eauto.
Qed.

Lemma trimEnd_last (s : jsstring) :
  trimEnd s <> [] -> isTrimSpace (last (trimEnd s) 0) = false.
Proof.
  induction s as [|d s IH]; simpl; [congruence|].
  destruct (trimEnd s) as [|e r] eqn:E.
  - destruct (isTrimSpace d) eqn:Hd; [congruence|]. intros _. exact Hd.
  - intros _. change (isTrimSpace (last (e :: r) 0) = false).
    apply IH. discriminate.
Qed.

Lemma trim_trimmed (s : jsstring) : trimmed (trim s) = true.
Proof.
  unfold trimmed, trim. destruct (trimEnd (trimStart s)) as [|c r] eqn:E; [reflexivity|].
  destruct (trimEnd_head _ _ _ E) as [r0 E0].
  rewrite (trimStart_head _ _ _ E0). rewrite <- E.
  rewrite trimEnd_last; [reflexivity|]. rewrite E. discriminate.
Qed.

(** X1. The add handler lets a text in exactly when its trimmed length is
    between 1 and 150.  Then the new task (with the trimmed text,
    [completed = false], the clock reading as id) goes to the end of the
    list and the text field is emptied; otherwise list, storage, page and
    text field stay as they were. *)
Theorem add_accepts_one_to_150 (env : Env) (w : World) :
  let n := List.length (trim (inputValue w)) in
  ((1 <= n <= 150)%nat ->
     tasks (handleAddTask env w) =
       tasks w ++ [mkTask (now env) (trim (inputValue w)) false (localeString env)] /\
     inputValue (handleAddTask env w) = []) /\
  (~ (1 <= n <= 150)%nat ->
     tasks (handleAddTask env w) = tasks w /\
     inputValue (handleAddTask env w) = inputValue w /\
     storage (handleAddTask env w) = storage w /\
     page (handleAddTask env w) = page w).
Proof.
  intros n. subst n. split.
  - intros [H1 H2].
    rewrite (handleAddTask_accepts env w); [|intros E; rewrite E in H1; simpl in H1; lia|exact H2].
    simpl. unfold persistTasks. destruct (setItemThrows env); simpl; auto.
  - intros H. destruct (trim (inputValue w)) as [|c r] eqn:E.
    + rewrite (handleAddTask_rejects_blank env w E). simpl. auto.
    + rewrite (handleAddTask_rejects_long env w).
      * simpl. auto.
      * rewrite E in *. simpl in *. lia.
Qed.

Lemma add_accepts_one_to_150_witness :
  tasks (handleAddTask sample_env (typed 1 sample_world)) =
    tasks sample_world ++ [mkTask 1700000000000 [97] false (js "11/14/2023, 10:13:20 PM")] /\
  tasks (handleAddTask sample_env (typed 200 sample_world)) = tasks sample_world.
Proof.
  split.
  - apply (proj1 (add_accepts_one_to_150 sample_env (typed 1 sample_world))).
    vm_compute. split; lia.
  - apply (proj2 (add_accepts_one_to_150 sample_env (typed 200 sample_world))).
    vm_compute. intros [_ H]. lia.
Defined.

(** ** What the list holds, whatever the events *)

Lemma In_toggle_found (taskId : Z) (l : list Task) (t' : Task) :
  In t' (toggle_found taskId l) -> exists t, In t l /\ same_identity t t'.
Proof.
  induction l as [|u r IH]; simpl; [tauto|].
  destruct (has_id taskId u).
  - intros [<-|H].
    + exists u. split; [auto|]. repeat split.
    + exists t'. split; [auto|]. repeat split.
  - intros [<-|H].
    + exists u. split; [auto|]. repeat split.
    + destruct (IH H) as (t & Ht & Hs). eauto.
Qed.

Lemma step_provenance (w : World) (e : event) (t' : Task) :
  In t' (tasks (step w e)) ->
  (exists t, In t (tasks w) /\ same_identity t t') \/
  (exists env input,
     e = AddTask env input /\ well_formed_text (trim input) = true /\
     t' = mkTask (now env) (trim input) false (localeString env)).
Proof.
  intros Hin.
  destruct (step_tasks_cases w e)
    as [E|[(env & input & -> & Hne & Hlen & E)|[(env & taskId & -> & _ & E)|(env & taskId & -> & E)]]];
    rewrite E in Hin.
  - left. exists t'. split; [exact Hin|]. repeat split.
  - apply in_app_iff in Hin as [Hin|[<-|[]]].
    + left. exists t'. split; [exact Hin|]. repeat split.
    + right. exists env, input. split; [reflexivity|]. split; [|reflexivity].
      unfold well_formed_text. rewrite trim_trimmed, andb_true_r.
      apply andb_true_iff. split; [apply Nat.leb_le|apply Nat.leb_le; exact Hlen].
      destruct (trim input); [congruence|simpl; lia].
  - left. apply filter_In in Hin. exists t'. split; [tauto|]. repeat split.
  - left. apply (In_toggle_found taskId). exact Hin.
Qed.

Lemma same_identity_trans (a b c : Task) :
  same_identity a b -> same_identity b c -> same_identity a c.
Proof. unfold same_identity. intuition congruence. Qed.

Lemma run_provenance (es : list event) : forall (w : World) (t' : Task),
  In t' (tasks (run w es)) ->
  (exists t, In t (tasks w) /\ same_identity t t') \/
  (exists env input,
     In (AddTask env input) es /\ well_formed_text (trim input) = true /\
     same_identity (mkTask (now env) (trim input) false (localeString env)) t').
Proof.
  induction es as [|e es IH]; intros w t' Hin; simpl in Hin.
  - left. exists t'. split; [exact Hin|]. repeat split.
  - destruct (IH _ _ Hin) as [(t & Ht & Hs)|(env & input & He & Hwf & Hs)].
    + destruct (step_provenance w e t Ht)
        as [(t0 & Ht0 & Hs0)|(env & input & -> & Hwf & ->)].
      * left. exists t0. split; [exact Ht0|]. eapply same_identity_trans; eauto.
      * right. exists env, input. split; [left; reflexivity|]. auto.
    + right. exists env, input. split; [right; exact He|]. auto.
Qed.

(** X2. Every task in a list built from the empty list still has the id,
    the text and the creation time that one add event of the sequence
    gave it: the clock reading, the trimmed input and the locale string of
    that event.  No handler writes these three fields afterwards. *)
Theorem tasks_keep_what_add_gave_them (es : list event) (t : Task) :
  In t (tasks (run fresh es)) ->
  exists env input,
    In (AddTask env input) es /\
    id t = now env /\ text t = trim input /\ createdAt t = localeString env.
Proof.
  intros Hin. destruct (run_provenance es fresh t Hin)
    as [(t0 & [] & _)|(env & input & He & _ & Hid & Htext & Hat)].
  exists env, input. simpl in *. auto.
Qed.

Lemma tasks_keep_what_add_gave_them_witness :
  exists env input,
    In (AddTask env input)
       [AddTask sample_env (js "  Buy milk "); ToggleComplete sample_env_later 1700000000000] /\
    1700000000000%Z = now env /\ js "Buy milk" = trim input /\
    js "11/14/2023, 10:13:20 PM" = localeString env.
Proof.
  apply (tasks_keep_what_add_gave_them
           [AddTask sample_env (js "  Buy milk "); ToggleComplete sample_env_later 1700000000000]
           (mkTask 1700000000000 (js "Buy milk") true (js "11/14/2023, 10:13:20 PM"))).
  vm_compute. left. reflexivity.
Defined.

(** X3. Every text in a list built from the empty list is as the add
    handler lets it in: between 1 and 150 code units long, with no white
    space at either end. *)
Theorem stored_texts_are_well_formed (es : list event) :
  Forall (fun t => well_formed_text (text t) = true) (tasks (run fresh es)).
Proof.
  apply Forall_forall. intros t Hin.
  destruct (run_provenance es fresh t Hin)
    as [(t0 & [] & _)|(env & input & _ & Hwf & _ & Htext & _)].
  simpl in Htext. rewrite <- Htext. exact Hwf.
Qed.

Lemma StronglySorted_snoc (l : list Z) (x : Z) :
  StronglySorted Z.le l -> (forall y, In y l -> (y <= x)%Z) ->
  StronglySorted Z.le (l ++ [x]).
Proof.
  induction 1 as [|a l Hl IH Ha]; intros Hx; simpl.
  - constructor; constructor.
  - constructor.
    + apply IH. intros y Hy. apply Hx. right. exact Hy.
    + apply Forall_app. split; [exact Ha|]. constructor; [|constructor].
      apply Hx. left. reflexivity.
Qed.

Lemma StronglySorted_filtered_ids (keep : Task -> bool) (l : list Task) :
  StronglySorted Z.le (map id l) -> StronglySorted Z.le (map id (filter keep l)).
Proof.
  induction l as [|t r IH]; simpl; [auto|]. intros H.
  apply StronglySorted_inv in H as [Hr Ht].
  destruct (keep t); simpl; [|exact (IH Hr)].
  constructor; [exact (IH Hr)|].
  rewrite Forall_forall in *. intros x Hx. apply Ht.
  exact (filtered_id_was_there keep r x Hx).
Qed.

Lemma run_ids_sorted (es : list event) : forall w : World,
  StronglySorted Z.le (map id (tasks w)) ->
  StronglySorted Z.le (add_times es) ->
  (forall x y, In x (map id (tasks w)) -> In y (add_times es) -> (x <= y)%Z) ->
  StronglySorted Z.le (map id (tasks (run w es))).
Proof.
  induction es as [|e es IH]; intros w Hw Hclock Hbound; simpl; [exact Hw|].
  rewrite add_times_cons in Hclock, Hbound.
  assert (Hes : StronglySorted Z.le (add_times es)).
  { destruct e; simpl in Hclock; try exact Hclock.
    apply StronglySorted_inv in Hclock. tauto. }
  destruct (step_tasks_cases w e)
    as [E|[(env & input & -> & _ & _ & E)|[(env & taskId & -> & _ & E)|(env & taskId & -> & E)]]];
    apply IH; rewrite ?E; try exact Hes.
  - exact Hw.
  - intros x y Hx Hy. apply Hbound; [exact Hx|apply in_app_iff; auto].
  - rewrite map_app. apply StronglySorted_snoc; [exact Hw|].
    intros y Hy. apply Hbound; [exact Hy|]. simpl. auto.
  - intros x y Hx Hy. rewrite map_app in Hx. apply in_app_iff in Hx as [Hx|[<-|[]]].
    + apply Hbound; [exact Hx|]. simpl. auto.
    + simpl in Hclock. apply StronglySorted_inv in Hclock as [_ Hall].
      rewrite Forall_forall in Hall. apply Hall. exact Hy.
  - apply StronglySorted_filtered_ids. exact Hw.
  - intros x y Hx Hy. apply Hbound; [|simpl; exact Hy].
    exact (filtered_id_was_there _ _ x Hx).
  - rewrite map_id_toggle_found. exact Hw.
  - intros x y Hx Hy. rewrite map_id_toggle_found in Hx. apply Hbound; [exact Hx|exact Hy].
Qed.

(** X4. As long as the clock never runs backwards between two adds, the
    list built from the empty list is in creation order with ids that
    never decrease from one task to the next. *)
Theorem ids_follow_the_clock (es : list event) :
  StronglySorted Z.le (add_times es) ->
  StronglySorted Z.le (map id (tasks (run fresh es))).
Proof.
  intros H. apply run_ids_sorted; [constructor|exact H|].
  intros x y [].
Qed.

Lemma ids_follow_the_clock_witness :
  StronglySorted Z.le
    (map id (tasks (run fresh [AddTask sample_env (js "Buy milk");
                               AddTask sample_env (js "Buy bread");
                               DeleteTask sample_env 7;
                               AddTask sample_env_later (js "Call Ann")]))).
Proof.
  apply (ids_follow_the_clock
           [AddTask sample_env (js "Buy milk");
            AddTask sample_env (js "Buy bread");
            DeleteTask sample_env 7;
            AddTask sample_env_later (js "Call Ann")]).
  vm_compute. repeat (constructor; [|repeat (constructor; [discriminate|]); constructor]).
  constructor.
Defined.

(** ** Storage and page against the list *)

Lemma step_mirrored (w : World) (e : event) :
  writes_succeed e -> mirrored w -> mirrored (step w e).
Proof.
  intros He [[Hs Ht]|Hw]; [|right; apply step_in_sync; assumption].
  destruct e as [env input|env taskId|env taskId|env]; simpl in *.
  - unfold handleAddTask.
    destruct (trim (inputValue (set_inputValue input w))) as [|c r]; [left; auto|].
    destruct (150 <? List.length (c :: r))%nat; [left; auto|].
    right. unfold in_sync, persistTasks. simpl. rewrite He. reflexivity.
  - unfold handleDeleteTask.
    destruct (confirms env (delete_prompt taskId (tasks w))); simpl; [|left; auto].
    right. unfold in_sync, persistTasks. simpl. rewrite He. reflexivity.
  - unfold handleToggleComplete. rewrite Ht. simpl. left. auto.
  - unfold handleExportTasks. rewrite Ht. left. auto.
Qed.

Lemma run_mirrored (es : list event) : forall w : World,
  Forall writes_succeed es -> mirrored w -> mirrored (run w es).
Proof.
  induction es as [|e es IH]; intros w Hes Hw; simpl; [exact Hw|].
  inversion Hes as [|? ? He Hr]; subst.
  apply IH; [exact Hr|]. apply step_mirrored; assumption.
Qed.

(** X5. Reloading restores the list.  After any sequence of events from a
    fresh start, during which every write to storage went through, what
    the next initialisation loads is the array of exactly the tasks now in
    the list, field by field. *)
Theorem reload_restores_the_list (es : list event) :
  Forall writes_succeed es ->
  Forall (fun z => safeInteger z = true) (add_times es) ->
  load (storage (run fresh es)) = Normal (js_of_tasks (tasks (run fresh es))).
Proof.
  intros Hw Hclock.
  assert (Hsafe : safe_ids (tasks (run fresh es))).
  { apply run_safe_ids; [exact Hclock|constructor]. }
  destruct (run_mirrored es fresh Hw) as [[Hs Ht]|Hsync].
  - left. split; reflexivity.
  - rewrite Hs, Ht. reflexivity.
  - rewrite Hsync. apply load_persisted. exact Hsafe.
Qed.

Lemma reload_restores_the_list_witness :
  load (storage (run fresh [AddTask sample_env (js "Buy milk");
                            AddTask sample_env_later (js "a < b & c");
                            ToggleComplete sample_env 1700000000001;
                            DeleteTask sample_env 1700000000000])) =
  Normal (js_of_tasks [mkTask 1700000000001 (js "a < b & c") true
                         (js "11/14/2023, 10:13:20 PM")]).
Proof.
  apply (reload_restores_the_list
           [AddTask sample_env (js "Buy milk");
            AddTask sample_env_later (js "a < b & c");
            ToggleComplete sample_env 1700000000001;
            DeleteTask sample_env 1700000000000]).
  - repeat (constructor; [reflexivity|]). constructor.
  - repeat (constructor; [reflexivity|]). constructor.
Defined.

(** X6. A write that fails is reported, not rolled back.  When
    [localStorage.setItem] throws, no event changes the stored item; an
    accepted add still puts the task in the list and on the page, and
    shows the error notification before the success notification. *)
Theorem failed_write_is_reported_not_rolled_back (env : Env) (w : World) :
  setItemThrows env = true ->
  (forall e, env_of e = env -> storage (step w e) = storage w) /\
  ((1 <= List.length (trim (inputValue w)) <= 150)%nat ->
     tasks (handleAddTask env w) =
       tasks w ++ [mkTask (now env) (trim (inputValue w)) false (localeString env)] /\
     page (handleAddTask env w) = render (tasks (handleAddTask env w)) /\
     exists message,
       effects (handleAddTask env w) =
         effects w ++ [Focus;
                       ConsoleError (js "Failed to save tasks:");
                       Notify save_failed_message error 3000;
                       Notify message success 3000]).
Proof.
  intros Hthrow. split.
  - intros e <-. destruct e as [env input|env taskId|env taskId|env]; simpl in *.
    + unfold handleAddTask.
      destruct (trim (inputValue (set_inputValue input w))) as [|c r]; [reflexivity|].
      destruct (150 <? List.length (c :: r))%nat; [reflexivity|].
      unfold persistTasks. simpl. rewrite Hthrow. reflexivity.
    + unfold handleDeleteTask.
      destruct (confirms env (delete_prompt taskId (tasks w))); simpl; [|reflexivity].
      unfold persistTasks. simpl. rewrite Hthrow. reflexivity.
    + unfold handleToggleComplete.
      destruct (find (has_id taskId) (tasks w)) as [t|]; [|reflexivity].
      unfold persistTasks. simpl. rewrite Hthrow.
      destruct (negb (completed t)); reflexivity.
    + unfold handleExportTasks. destruct (tasks w); [reflexivity|].
      destruct (downloadThrows env); reflexivity.
  - intros [H1 H2].
    rewrite (handleAddTask_accepts env w); [|intros E; rewrite E in H1; simpl in H1; lia|exact H2].
    unfold persistTasks. simpl. rewrite Hthrow. simpl.
    split; [reflexivity|]. split; [reflexivity|].
    eexists. rewrite <- !app_assoc. reflexivity.
Qed.

Lemma failed_write_is_reported_not_rolled_back_witness :
  storage (handleAddTask sample_env_quota (typed 3 sample_world)) = storage sample_world /\
  tasks (handleAddTask sample_env_quota (typed 3 sample_world)) =
    tasks sample_world ++ [mkTask 1700000000002 (js "aaa") false (js "11/14/2023, 10:13:20 PM")].
Proof.
  destruct (failed_write_is_reported_not_rolled_back sample_env_quota (typed 3 sample_world))
    as [Hs Ha]; [reflexivity|].
  split.
  - exact (Hs (AddTask sample_env_quota (inputValue (typed 3 sample_world))) eq_refl).
  - apply Ha. vm_compute. split; lia.
Defined.



(** ** Deleting a task that is there *)

Lemma filter_has_id_length (taskId : Z) (l : list Task) :
  (List.length (filter (fun task => negb (has_id taskId task)) l)
   + List.length (filter (has_id taskId) l) = List.length l)%nat.
Proof.
  induction l as [|t r IH]; simpl; [reflexivity|].
  destruct (has_id taskId t); simpl; lia.
Qed.

(** X8. A confirmed delete removes every task that has the id (all of
    them, when several share it) and keeps the others in their order; the
    page is repainted from the new list.  A declined delete changes
    nothing: list, storage and page stay, and the only effect is the
    prompt. *)
Theorem delete_removes_every_match (env : Env) (taskId : Z) (w : World) :
  (confirms env (delete_prompt taskId (tasks w)) = true ->
     tasks (handleDeleteTask env taskId w) =
       filter (fun task => negb (has_id taskId task)) (tasks w) /\
     ~ In taskId (map id (tasks (handleDeleteTask env taskId w))) /\
     (forall t, In t (tasks w) -> id t <> taskId ->
                In t (tasks (handleDeleteTask env taskId w))) /\
     (List.length (tasks (handleDeleteTask env taskId w))
      + List.length (filter (has_id taskId) (tasks w)) = List.length (tasks w))%nat /\
     page (handleDeleteTask env taskId w) = render (tasks (handleDeleteTask env taskId w))) /\
  (confirms env (delete_prompt taskId (tasks w)) = false ->
     tasks (handleDeleteTask env taskId w) = tasks w /\
     storage (handleDeleteTask env taskId w) = storage w /\
     page (handleDeleteTask env taskId w) = page w /\
     effects (handleDeleteTask env taskId w) =
       effects w ++ [Confirm (delete_prompt taskId (tasks w))]).
Proof.
  unfold handleDeleteTask. split; intros Hc; rewrite Hc; simpl.
  - rewrite tasks_persistTasks. simpl. split; [reflexivity|]. split; [|split; [|split]].
    + rewrite in_map_iff. intros (t & Hid & Hin). apply filter_In in Hin as [_ Hk].
      unfold has_id in Hk. rewrite Hid, Z.eqb_refl in Hk. discriminate.
    + intros t Hin Hid. apply filter_In. split; [exact Hin|].
      unfold has_id. apply Z.eqb_neq in Hid. rewrite Hid. reflexivity.
    + apply filter_has_id_length.
    + reflexivity.
  - auto.
Qed.

Lemma delete_removes_every_match_witness :
  tasks (handleDeleteTask sample_env 1700000000000
           (run fresh [AddTask sample_env (js "Buy milk");
                       AddTask sample_env (js "Buy bread");
                       AddTask sample_env_later (js "Call Ann")])) =
  [mkTask 1700000000001 (js "Call Ann") false (js "11/14/2023, 10:13:20 PM")].
Proof.
  apply (proj1 (delete_removes_every_match sample_env 1700000000000
                  (run fresh [AddTask sample_env (js "Buy milk");
                              AddTask sample_env (js "Buy bread");
                              AddTask sample_env_later (js "Call Ann")]))).
  reflexivity.
Defined.

(** X9. The confirm prompt quotes at most the first 30 code units of the
    text of the task found, and never marks the cut: the text is shortened
    before the test that would add the three dots, so the test is never
    true. *)
Theorem delete_prompt_never_marks_the_cut (taskId : Z) (l : list Task) :
  In taskId (map id l) ->
  exists t,
    In t l /\ id t = taskId /\
    delete_prompt taskId l =
      js "Delete " ++ dquote ++ firstn 30 (text t) ++ dquote
        ++ js "? This cannot be undone.".
Proof.
  intros Hin. destruct (find_has_id_In taskId l Hin) as [t Ht].
  exists t. pose proof (find_some _ _ Ht) as [Hl Hid].
  split; [exact Hl|]. split; [apply Z.eqb_eq; exact Hid|].
  unfold delete_prompt, substring0. rewrite Ht.
  destruct (Nat.ltb_spec 30 (List.length (firstn 30 (text t)))) as [H|H].
  - rewrite length_firstn in H. lia.
  - reflexivity.
Qed.

Lemma delete_prompt_never_marks_the_cut_witness :
  delete_prompt 5 [mkTask 5 (repeat 97 40) false []] =
  js "Delete " ++ dquote ++ repeat 97 30 ++ dquote ++ js "? This cannot be undone.".
Proof.
  destruct (delete_prompt_never_marks_the_cut 5 [mkTask 5 (repeat 97 40) false []])
    as (t & [<-|[]] & _ & H).
  - left. reflexivity.
  - exact H.
Defined.

(** ** Toggling: feedback and counters *)

(** X10. The toggle handler answers by what the task was.  If no task has
    the id, nothing at all happens.  If the task found was incomplete, the
    last effect is the two-second success notification with one of the
    five celebration emoji; if it was complete, it is the 1.5-second
    information that the task is marked incomplete.  In both cases the
    list is written to storage (when the write goes through) and the page
    is repainted from it. *)
Theorem toggle_feedback (env : Env) (taskId : Z) (w : World) :
  (~ In taskId (map id (tasks w)) -> handleToggleComplete env taskId w = w) /\
  (forall t, find (has_id taskId) (tasks w) = Some t ->
     page (handleToggleComplete env taskId w) =
       render (tasks (handleToggleComplete env taskId w)) /\
     (setItemThrows env = false ->
        storage (handleToggleComplete env taskId w) =
          Some (stringify_tasks 0 (tasks (handleToggleComplete env taskId w)))) /\
     effects (handleToggleComplete env taskId w) =
       effects w ++ save_failure env ++
       [if completed t then Notify incomplete_message info 1500
        else Notify (completed_message env) success 2000] /\
     ((random env < 5)%nat -> In (nth (random env) celebration []) celebration)).
Proof.
  split.
  - intros H. unfold handleToggleComplete.
    rewrite (find_has_id_absent taskId _ H). reflexivity.
  - intros t Ht.
    assert (Hn : (random env < 5)%nat -> In (nth (random env) celebration []) celebration)
      by (intros Hr; apply nth_In; exact Hr).
    unfold handleToggleComplete. rewrite Ht.
    unfold persistTasks, save_failure.
    destruct (completed t), (setItemThrows env); simpl;
      rewrite <- ?app_assoc; repeat split; try discriminate; try reflexivity;
      exact Hn.
Qed.

Lemma toggle_feedback_witness :
  handleToggleComplete sample_env 42 sample_world = sample_world /\
  effects (handleToggleComplete sample_env_later 1700000000000 sample_world) =
    effects sample_world ++ [Notify (js "Great job! You crushed it! " ++ [55356; 57226])
                               success 2000].
Proof.
  split.
  - apply (proj1 (toggle_feedback sample_env 42 sample_world)).
    vm_compute. intros [H|[]]. discriminate H.
  - destruct (proj2 (toggle_feedback sample_env_later 1700000000000 sample_world)
                (mkTask 1700000000000 (js "Buy milk") false (js "11/14/2023, 10:13:20 PM"))
                eq_refl) as (_ & _ & H & _).
    exact H.
Defined.




Lemma all_completed_iff (l : list Task) :
  List.length (filter completed l) = List.length l <-> forallb completed l = true.
Proof.
  induction l as [|t r IH]; simpl; [tauto|].
  pose proof (filter_length_le completed r) as Hle.
  destruct (completed t); simpl.
  - rewrite <- IH. lia.
  - split; [lia|discriminate].
Qed.

(** X12. The three counters are consistent for every list: completed and
    pending add up to the total, neither is negative, and pending is zero
    exactly when every task of the list is completed. *)
Theorem counters_are_consistent (l : list Task) :
  let s := updateStatistics l in
  (completedCount s + pendingCount s = totalCount s)%Z /\
  (0 <= completedCount s <= totalCount s)%Z /\
  (0 <= pendingCount s <= totalCount s)%Z /\
  totalCount s = Z.of_nat (List.length l) /\
  (pendingCount s = 0%Z <-> forallb completed l = true).
Proof.
  cbv zeta. unfold updateStatistics. simpl.
  pose proof (filter_length_le completed l) as Hle.
  repeat split; try lia.
  - intros H. apply all_completed_iff. lia.
  - intros H. apply all_completed_iff in H. lia.
Qed.

(** ** Escaping *)

Lemma escapeHtml_cons (c : codeunit) (r : jsstring) :
  escapeHtml (c :: r) =
  match htmlEscapeMap c with
  | Some entity => entity ++ escapeHtml r
  | None => c :: escapeHtml r
  end.
Proof. reflexivity. Qed.

Lemma escapeHtml_nil_inv (s : jsstring) : escapeHtml s = [] -> s = [].
Proof.
  destruct s as [|c r]; [reflexivity|]. rewrite escapeHtml_cons.
  destruct (htmlEscapeMap_cases c)
    as [[-> E]|[[-> E]|[[-> E]|[[-> E]|[[-> E]|(_ & _ & _ & _ & _ & E)]]]]];
    rewrite E; discriminate.
Qed.

Lemma special_htmlEscapeMap (c : codeunit) :
  special c = false <-> htmlEscapeMap c = None.
Proof.
  unfold special.
  destruct (htmlEscapeMap_cases c)
    as [[-> E]|[[-> E]|[[-> E]|[[-> E]|[[-> E]|(H1 & H2 & H3 & H4 & H5 & E)]]]]];
    rewrite E; try (split; discriminate).
  apply N.eqb_neq in H1, H2, H3, H4, H5. rewrite H1, H2, H3, H4, H5. tauto.
Qed.

(** X13. Escaping loses nothing: two different texts never give the same
    escaped text, so the text of a row determines the task text. *)
Theorem escapeHtml_injective (a : jsstring) : forall b : jsstring,
  escapeHtml a = escapeHtml b -> a = b.
Proof.
  induction a as [|c r IH]; intros [|d r'] H.
  - reflexivity.
  - symmetry in H. apply escapeHtml_nil_inv in H. discriminate.
  - apply escapeHtml_nil_inv in H. discriminate.
  - rewrite !escapeHtml_cons in H.
    destruct (htmlEscapeMap_cases c)
      as [[-> Ec]|[[-> Ec]|[[-> Ec]|[[-> Ec]|[[-> Ec]|(C1 & C2 & C3 & C4 & C5 & Ec)]]]]];
    destruct (htmlEscapeMap_cases d)
      as [[-> Ed]|[[-> Ed]|[[-> Ed]|[[-> Ed]|[[-> Ed]|(D1 & D2 & D3 & D4 & D5 & Ed)]]]]];
    rewrite ?Ec, ?Ed in H; try vm_compute (js _) in H; cbn [List.app] in H;
    try discriminate H;
    try (injection H as H; f_equal; apply IH; exact H);
    try (injection H as H0 H; congruence).
    injection H as -> H. f_equal. apply IH. exact H.
Qed.

Lemma escapeHtml_injective_witness :
  js "a&b" = [97; 38; 98].
Proof.
  apply (escapeHtml_injective (js "a&b") [97; 38; 98]). reflexivity.
Defined.

Lemma escapeHtml_length (s : jsstring) :
  (List.length s <= List.length (escapeHtml s) <= 6 * List.length s)%nat /\
  (forallb (fun c => negb (special c)) s = false ->
   List.length s < List.length (escapeHtml s))%nat.
Proof.
  induction s as [|c r [[IH1 IH2] IH3]]; [simpl; split; [lia|discriminate]|].
  rewrite escapeHtml_cons. cbn [forallb].
  destruct (htmlEscapeMap_cases c)
    as [[-> E]|[[-> E]|[[-> E]|[[-> E]|[[-> E]|(H1 & H2 & H3 & H4 & H5 & E)]]]]];
    rewrite E; try (vm_compute (js _); simpl; split; [lia|intros _; lia]).
  assert (Hs : special c = false) by (apply special_htmlEscapeMap; exact E).
  rewrite Hs. simpl. split; [lia|]. intros H. specialize (IH3 H). lia.
Qed.

(** X14. Escaping never shortens a text and at most makes it six times as
    long; it returns the text as it is exactly when the text has none of
    the five special characters. *)
Theorem escapeHtml_changes_only_special_text (s : jsstring) :
  (List.length s <= List.length (escapeHtml s) <= 6 * List.length s)%nat /\
  (escapeHtml s = s <-> forallb (fun c => negb (special c)) s = true).
Proof.
  split; [apply escapeHtml_length|]. split.
  - intros H. destruct (forallb (fun c => negb (special c)) s) eqn:E; [reflexivity|].
    pose proof (proj2 (escapeHtml_length s) E) as Hlt. rewrite H in Hlt. lia.
  - induction s as [|c r IH]; [reflexivity|]. cbn [forallb].
    intros H. apply andb_true_iff in H as [Hc Hr].
    rewrite escapeHtml_cons.
    apply negb_true_iff, special_htmlEscapeMap in Hc. rewrite Hc, (IH Hr). reflexivity.
Qed.

(** ** Exporting: what else the handler does *)

Lemma before_T_date (date time : jsstring) :
  ~ In 84 date -> before_T (date ++ 84 :: time) = date.
Proof.
  induction date as [|c r IH]; simpl; [reflexivity|].
  intros H. destruct (N.eqb_spec c 84) as [->|Hc]; [tauto|].
  f_equal. apply IH. tauto.
Qed.

(** X15. Exporting only reads.  Whatever happens, the handler leaves the
    list, the stored item, the text field and the page as they were.  When
    the platform calls throw on a non-empty list, no download is
    triggered: the effects are the error notification and the console
    error. *)
Theorem export_only_reads (env : Env) (w : World) :
  tasks (handleExportTasks env w) = tasks w /\
  storage (handleExportTasks env w) = storage w /\
  inputValue (handleExportTasks env w) = inputValue w /\
  page (handleExportTasks env w) = page w /\
  (tasks w <> [] -> downloadThrows env = true ->
     effects (handleExportTasks env w) =
       effects w ++ [Notify export_failed_message error 3000;
                     ConsoleError (js "Export error:")]).
Proof.
  split; [apply tasks_handleExportTasks|].
  unfold handleExportTasks. destruct (tasks w) as [|t r].
  - repeat split; try reflexivity. intros H. exfalso. apply H. reflexivity.
  - destruct (downloadThrows env); repeat split; try reflexivity; try discriminate.
    intros _ _. simpl. rewrite <- app_assoc. reflexivity.
Qed.

Lemma export_only_reads_witness :
  effects (handleExportTasks sample_env_no_blob sample_world) =
    effects sample_world ++ [Notify export_failed_message error 3000;
                             ConsoleError (js "Export error:")].
Proof.
  apply (proj2 (proj2 (proj2 (proj2 (export_only_reads sample_env_no_blob sample_world))))).
  - discriminate.
  - reflexivity.
Defined.

(** X16. The exported file is named after the date: when the ISO string of
    the clock is a date, the letter T and a time, the file is
    [tasks-<date>.json], its content is [JSON.stringify(tasks, null, 2)],
    and the notification counts the tasks, saying [task] for exactly one
    and [tasks] otherwise. *)
Theorem export_names_the_file_by_date (env : Env) (w : World) (date time : jsstring) :
  tasks w <> [] -> downloadThrows env = false ->
  isoString env = date ++ 84 :: time -> ~ In 84 date ->
  effects (handleExportTasks env w) =
    effects w ++
    [Download (js "tasks-" ++ date ++ js ".json") (stringify_tasks 2 (tasks w));
     Notify (exported_message (List.length (tasks w))) success 3000].
Proof.
  intros Hne Hthrow Hiso Hdate. unfold handleExportTasks.
  destruct (tasks w) as [|t r] eqn:E; [congruence|].
  rewrite Hthrow, Hiso, (before_T_date date time Hdate).
  simpl. rewrite <- app_assoc. reflexivity.
Qed.

Lemma export_names_the_file_by_date_witness :
  effects (handleExportTasks sample_env sample_world) =
    effects sample_world ++
    [Download (js "tasks-2023-11-14.json") (stringify_tasks 2 (tasks sample_world));
     Notify (js "Exported 1 task successfully! " ++ [55357; 56549]) success 3000].
Proof.
  apply (export_names_the_file_by_date sample_env sample_world
           (js "2023-11-14") (js "22:13:20.000Z")).
  - discriminate.
  - reflexivity.
  - reflexivity.
  - vm_compute. intuition discriminate.
Defined.

(** X17. [exportTasksToJSON], unlike the export handler, exports whatever
    the list holds, the empty list too: when the platform calls go
    through, it triggers one download named [tasks.json], notifies nobody
    and leaves list and storage alone, and the document parses back to the
    array of the tasks. *)
Theorem exportTasksToJSON_exports_any_list (env : Env) (w : World) :
  downloadThrows env = false -> safe_ids (tasks w) ->
  exists w' content,
    exportTasksToJSON env w = Some w' /\
    effects w' = effects w ++ [Download (js "tasks.json") content] /\
    JSON.parse content = Some (js_of_tasks (tasks w)) /\
    tasks w' = tasks w /\ storage w' = storage w.
Proof.
  intros Hthrow Hsafe. unfold exportTasksToJSON. rewrite Hthrow.
  eexists _, _. split; [reflexivity|]. split; [reflexivity|].
  split; [apply (parse_stringify_tasks 2 _ Hsafe)|]. split; reflexivity.
Qed.

Lemma exportTasksToJSON_exports_any_list_witness :
  exists w' content,
    exportTasksToJSON sample_env fresh = Some w' /\
    effects w' = effects fresh ++ [Download (js "tasks.json") content] /\
    JSON.parse content = Some (JArr []) /\
    tasks w' = tasks fresh /\ storage w' = storage fresh.
Proof.
  apply (exportTasksToJSON_exports_any_list sample_env fresh).
  - reflexivity.
  - constructor.
Defined.

(** ** The Enter key *)

Lemma jsstring_eqb_eq (a b : jsstring) : jsstring_eqb a b = true <-> a = b.
Proof.
  revert b. induction a as [|x a IH]; intros [|y b]; simpl;
    try (split; [discriminate|discriminate]); [tauto|].
  rewrite andb_true_iff, N.eqb_eq, IH. split; [intros [-> ->]; reflexivity|].
  intros [= -> ->]. auto.
Qed.

(** Only the Enter key does anything in the text field, and what it does
    is what the Add button does. *)
Lemma keypress_is_add_on_enter_only (key : jsstring) (env : Env) (w : World) :
  (key = js "Enter" -> taskInput_keypress key env w = handleAddTask env w) /\
  (key <> js "Enter" -> taskInput_keypress key env w = w).
Proof.
  unfold taskInput_keypress. split; intros H.
  - apply jsstring_eqb_eq in H. rewrite H. reflexivity.
  - destruct (jsstring_eqb key (js "Enter")) eqn:E; [|reflexivity].
    apply jsstring_eqb_eq in E. congruence.
Qed.

(** ** Add, then delete *)

(** X18. Deleting what was just added undoes the add: after an accepted
    add whose clock reading was the id of no task, a confirmed delete of
    that id leaves the list as it was before the add. *)
Theorem add_then_delete_restores (env1 env2 : Env) (w : World) :
  (1 <= List.length (trim (inputValue w)) <= 150)%nat ->
  ~ In (now env1) (map id (tasks w)) ->
  confirms env2 (delete_prompt (now env1) (tasks (handleAddTask env1 w))) = true ->
  List.length (tasks (handleAddTask env1 w)) = S (List.length (tasks w)) /\
  tasks (handleDeleteTask env2 (now env1) (handleAddTask env1 w)) = tasks w.
Proof.
  intros [H1 H2] Hfresh Hc.
  assert (Ha : tasks (handleAddTask env1 w) = tasks w ++ [added env1 w]).
  { rewrite (handleAddTask_accepts env1 w);
      [|intros E; rewrite E in H1; simpl in H1; lia|exact H2].
    simpl. apply tasks_persistTasks. }
  split; [rewrite Ha, length_app; simpl; lia|].
  unfold handleDeleteTask. rewrite Hc. simpl. rewrite tasks_persistTasks. simpl.
  rewrite Ha, filter_app, (filter_absent _ _ Hfresh). simpl.
  unfold has_id. simpl. rewrite Z.eqb_refl. simpl. apply List.app_nil_r.
Qed.

Lemma add_then_delete_restores_witness :
  tasks (handleDeleteTask sample_env 1700000000001
           (handleAddTask sample_env_later (typed 3 sample_world))) =
  tasks sample_world.
Proof.
  apply (add_then_delete_restores sample_env_later sample_env (typed 3 sample_world)).
  - vm_compute. split; lia.
  - vm_compute. intros [H|[]]. discriminate H.
  - reflexivity.
Defined.
